(** * demo-med: patient risk assessment over a paginated clinical API

    A shallow embedding of [results.js]: the retrying fetcher, the page
    fetcher, the pagination collector and the risk assessor, together with
    the fragment of ECMAScript they rely on (number coercion, relational
    operators on doubles, property access, a backtracking regular-expression
    matcher), followed by the properties proved about them. *)

From Stdlib Require Import ZArith NArith QArith Ascii String SpecFloat Lia Lqa.
From stdpp Require Import base tactics option list gmap strings pretty.

#[local] Open Scope string_scope.
#[local] Open Scope Z_scope.
#[local] Open Scope list_scope.

(** ** ECMAScript numbers: IEEE 754 binary64 *)

Module JS.

Definition prec : Z := 53.
Definition emax : Z := 1024.

Abbreviation number := spec_float.

Definition NaN : number := S754_nan.

(** The Number value of [(-1)^neg * m * 10^e]: round to nearest, ties to
    even, as for a decimal literal and for [StringToNumber].  The rounding
    is that of the exact value, whatever the number of digits. *)
Definition of_decimal (neg : bool) (m : N) (e : Z) : number :=
  match m with
  | N0 => S754_zero neg
  | Npos p =>
      match e with
      | Zneg k =>
          let '(q, e', l) :=
            SFdiv_core_binary prec emax (Zpos p) 0 (Zpos (10 ^ k)) 0 in
          binary_round_aux prec emax neg q e' l
      | Z0 => binary_round prec emax neg p 0
      | Zpos k => binary_round prec emax neg (p * 10 ^ k) 0
      end
  end.

(** A non-negative integer literal such as [66] or [140]. *)
Definition lit (z : Z) : number := of_decimal false (Z.to_N z) 0.

(** [Number.isFinite] on a value that already is a Number. *)
Definition isFinite (x : number) : bool :=
  match x with
  | S754_zero _ | S754_finite _ _ _ => true
  | S754_infinity _ | S754_nan => false
  end.

(** [x < y] and [x >= y] on Numbers.  [x >= y] is "not (x < y)", except
    that it is false as soon as one side is NaN. *)
Definition lt (x y : number) : bool :=
  match SFcompare x y with
  | Some Lt => true
  | _ => false
  end.

Definition ge (x y : number) : bool :=
  match SFcompare x y with
  | Some Eq | Some Gt => true
  | Some Lt | None => false
  end.

(** ** Strings to numbers

    A string is the UTF-8 encoding of the ECMAScript string. *)

Definition bytes (l : list nat) : string :=
  string_of_list_ascii (ascii_of_nat <$> l).

(** WhiteSpace and LineTerminator code points, UTF-8 encoded: TAB, LF, VT,
    FF, CR, SP, U+00A0, U+1680, U+2000..U+200A, U+2028, U+2029, U+202F,
    U+205F, U+3000, U+FEFF. *)
Definition StrWhiteSpaceChar : list string :=
  bytes <$>
    [ [9]; [10]; [11]; [12]; [13]; [32]; [194; 160]; [225; 154; 128];
      [226; 128; 128]; [226; 128; 129]; [226; 128; 130]; [226; 128; 131];
      [226; 128; 132]; [226; 128; 133]; [226; 128; 134]; [226; 128; 135];
      [226; 128; 136]; [226; 128; 137]; [226; 128; 138]; [226; 128; 168];
      [226; 128; 169]; [226; 128; 175]; [226; 129; 159]; [227; 128; 128];
      [239; 187; 191] ]%nat.

Fixpoint strip_prefix (p s : string) : option string :=
  match p, s with
  | EmptyString, _ => Some s
  | String a p', String b s' =>
      if Ascii.eqb a b then strip_prefix p' s' else None
  | String _ _, EmptyString => None
  end.

Fixpoint strip_any (toks : list string) (s : string) : option string :=
  match toks with
  | [] => None
  | t :: toks' =>
      match strip_prefix t s with
      | Some s' => Some s'
      | None => strip_any toks' s
      end
  end.

Fixpoint drop_leading (toks : list string) (n : nat) (s : string) : string :=
  match n with
  | O => s
  | S n' =>
      match strip_any toks s with
      | Some s' => drop_leading toks n' s'
      | None => s
      end
  end.

Definition trim (s : string) : string :=
  let s1 := drop_leading StrWhiteSpaceChar (String.length s) s in
  let r := String.rev s1 in
  String.rev (drop_leading (String.rev <$> StrWhiteSpaceChar) (String.length r) r).

Definition is_digit (c : ascii) : bool :=
  (48 <=? N_of_ascii c)%N && (N_of_ascii c <=? 57)%N.

(** The value of a digit in radix up to 16, if it is one. *)
Definition digit_value (c : ascii) : option N :=
  let n := N_of_ascii c in
  if (48 <=? n)%N && (n <=? 57)%N then Some (n - 48)%N
  else if (97 <=? n)%N && (n <=? 102)%N then Some (n - 87)%N
  else if (65 <=? n)%N && (n <=? 70)%N then Some (n - 55)%N
  else None.

Fixpoint span_digits (s : string) : string * string :=
  match s with
  | String c s' =>
      if is_digit c then
        let '(d, r) := span_digits s' in (String c d, r)
      else (EmptyString, s)
  | EmptyString => (EmptyString, EmptyString)
  end.

(** The integer written by a whole string of digits in the given radix. *)
Fixpoint digits_in (radix : N) (acc : N) (s : string) : option N :=
  match s with
  | EmptyString => Some acc
  | String c s' =>
      match digit_value c with
      | Some d =>
          if (d <? radix)%N then digits_in radix (radix * acc + d)%N s'
          else None
      | None => None
      end
  end.

Definition decimal_value (s : string) : N :=
  default 0%N (digits_in 10 0 s).

(** ExponentPart (optional), up to the end of the string. *)
Definition parse_exponent (s : string) : option Z :=
  match s with
  | EmptyString => Some 0
  | String c s' =>
      if Ascii.eqb c "e" || Ascii.eqb c "E" then
        let '(neg, s'') :=
          match s' with
          | String "+" t => (false, t)
          | String "-" t => (true, t)
          | _ => (false, s')
          end in
        match span_digits s'' with
        | (String _ _ as ds, EmptyString) =>
            let n := Z.of_N (decimal_value ds) in
            Some (if neg then - n else n)
        | _ => None
        end
      else None
  end.

(** StrUnsignedDecimalLiteral, with the sign already read. *)
Definition parse_unsigned_decimal (neg : bool) (s : string) : number :=
  if String.eqb s "Infinity" then S754_infinity neg
  else
    let '(ip, r1) := span_digits s in
    let '(fp, dot, r2) :=
      match r1 with
      | String "." t => let '(f, r) := span_digits t in (f, true, r)
      | _ => (EmptyString, false, r1)
      end in
    let has_digits :=
      negb (String.eqb ip "") || (dot && negb (String.eqb fp "")) in
    match parse_exponent r2 with
    | Some e =>
        if has_digits then
          of_decimal neg (decimal_value (ip +:+ fp))
                     (e - Z.of_nat (String.length fp))
        else NaN
    | None => NaN
    end.

(** NonDecimalIntegerLiteral: the digits after [0x], [0o] or [0b]. *)
Definition parse_radix (radix : N) (s : string) : number :=
  match s with
  | EmptyString => NaN
  | _ =>
      match digits_in radix 0 s with
      | Some n => of_decimal false n 0
      | None => NaN
      end
  end.

Definition StringToNumber (s : string) : number :=
  match trim s with
  | EmptyString => S754_zero false
  | String "0" (String "x" t) | String "0" (String "X" t) => parse_radix 16 t
  | String "0" (String "o" t) | String "0" (String "O" t) => parse_radix 8 t
  | String "0" (String "b" t) | String "0" (String "B" t) => parse_radix 2 t
  | String "+" t => parse_unsigned_decimal false t
  | String "-" t => parse_unsigned_decimal true t
  | t => parse_unsigned_decimal false t
  end.

(** ** Values *)

#[warnings="-register-all"]
Inductive value : Type :=
  | VUndefined
  | VNull
  | VBool (b : bool)
  | VNum (x : number)
  | VStr (s : string)
  | VArr (l : list value)
  | VObj (o : gmap string value).

Inductive error : Type :=
  | TypeError_nullish (base : value) (prop : string)
      (* reading a property of undefined or null *)
  | TypeError_primitive
      (* an object that cannot be converted to a primitive value *)
  | Error (message : string)
      (* new Error(message) *)
  | RangeError_arguments
      (* a call with more arguments than the engine accepts *)
  | Rejection (name : string) (message : string).
      (* an error raised by the host: a network failure, a JSON syntax error *)

Inductive outcome (A : Type) : Type :=
  | Ret (a : A)
  | Throw (e : error).
Arguments Ret {A} a.
Arguments Throw {A} e.

(** Converting an object to a primitive calls its [toString]: that of
    [Array.prototype] joins the strings of the elements, that of
    [Object.prototype] gives "[object Object]".  An object read from JSON
    holds no function, so one with a property of its own called [toString]
    has no conversion, and neither has an array that holds such an object:
    the conversion throws a TypeError. *)
Fixpoint unprintable (v : value) : bool :=
  match v with
  | VObj o =>
      match o !! "toString" with
      | Some _ => true
      | None => false
      end
  | VArr l => existsb unprintable l
  | _ => false
  end.

(** The Number of a value whose conversion to a primitive succeeds.  An
    array converts to its elements joined by commas, where [undefined] and
    [null] give the empty string.  The string of a Number reads back as the
    same Number, but for [-0], whose string is "0". *)
Fixpoint number_of (v : value) : number :=
  match v with
  | VUndefined => NaN
  | VNull => S754_zero false
  | VBool b => if b then lit 1 else S754_zero false
  | VNum x => x
  | VStr s => StringToNumber s
  | VObj _ => NaN
  | VArr [] => S754_zero false
  | VArr [e] =>
      match e with
      | VUndefined | VNull => S754_zero false
      | VBool _ => NaN
      | VNum (S754_zero _) => S754_zero false
      | VNum x => x
      | VStr s => StringToNumber s
      | VObj _ => NaN
      | VArr _ => number_of e
      end
  | VArr (_ :: _ :: _) => NaN
  end.

Definition ToNumber (v : value) : outcome number :=
  if unprintable v then Throw TypeError_primitive else Ret (number_of v).

(** The function [Number] called with one argument. *)
Definition Number (v : value) : outcome number := ToNumber v.

(** [base.prop] for a property name that no prototype defines. *)
Definition get (base : value) (prop : string) : outcome value :=
  match base with
  | VUndefined | VNull => Throw (TypeError_nullish base prop)
  | VObj o => Ret (default VUndefined (o !! prop))
  | VBool _ | VNum _ | VStr _ | VArr _ => Ret VUndefined
  end.

(** [Array.isArray], and the elements of an array. *)
Definition isArray (v : value) : bool :=
  match v with
  | VArr _ => true
  | _ => false
  end.

Definition elements (v : value) : list value :=
  match v with
  | VArr l => l
  | _ => []
  end.

(** [v ?? d] *)
Definition nullish_or (v d : value) : value :=
  match v with
  | VUndefined | VNull => d
  | _ => v
  end.

(** [array.push(...items)]: the items are spread into the arguments of one
    call.  The language sets no bound on their number, an engine does;
    [max_arguments] is the most it accepts here.  Beyond it the call throws
    a RangeError and the array is left as it was. *)
Definition push_spread (max_arguments : Z) (array items : list value)
    : outcome (list value) :=
  if Z.of_nat (length items) <=? max_arguments then Ret (array ++ items)
  else Throw RangeError_arguments.

End JS.

(** ** Regular expressions: the backtracking matcher of the language
       definition, for the constructs the program uses *)

Module Regex.

Inductive regex : Type :=
  | Digit                              (* \d *)
  | Char (c : ascii)                   (* a pattern character *)
  | Seq (r1 r2 : regex)
  | Repeat (lo hi : nat) (r : regex)   (* r{lo,hi}, greedy *)
  | Group (i : nat) (r : regex)        (* capturing group number i+1 *)
  | Bol                                (* ^ without the m flag *)
  | Eol.                               (* $ without the m flag *)

Definition captures : Type := list (option string).

(** A continuation receives the end index, the input left and the captures. *)
Definition cont : Type := nat → string → captures → option (nat * captures).

Fixpoint matcher (r : regex) (pos : nat) (rest : string) (caps : captures)
    (k : cont) {struct r} : option (nat * captures) :=
  match r with
  | Digit =>
      match rest with
      | String c rest' => if JS.is_digit c then k (S pos) rest' caps else None
      | EmptyString => None
      end
  | Char a =>
      match rest with
      | String c rest' => if Ascii.eqb a c then k (S pos) rest' caps else None
      | EmptyString => None
      end
  | Seq r1 r2 =>
      matcher r1 pos rest caps
        (λ pos' rest' caps', matcher r2 pos' rest' caps' k)
  | Group i r' =>
      matcher r' pos rest caps
        (λ pos' rest' caps',
           k pos' rest' (<[i := Some (substring 0 (pos' - pos) rest)]> caps'))
  | Bol => if Nat.eqb pos 0 then k pos rest caps else None
  | Eol =>
      match rest with
      | EmptyString => k pos rest caps
      | String _ _ => None
      end
  | Repeat lo hi r' =>
      (fix repeat (lo hi : nat) (pos : nat) (rest : string) (caps : captures)
           {struct hi} : option (nat * captures) :=
         match hi with
         | O => k pos rest caps
         | S hi' =>
             let again :=
               matcher r' pos rest caps
                 (λ pos' rest' caps',
                    if Nat.eqb lo 0 && Nat.eqb pos' pos then None
                    else repeat (Nat.pred lo) hi' pos' rest' caps') in
             match lo with
             | S _ => again
             | O =>
                 match again with
                 | Some res => Some res
                 | None => k pos rest caps
                 end
             end
         end) lo hi pos rest caps
  end.

(** [RegExpBuiltinExec] for a pattern without the g and y flags: the first
    index at which the pattern matches, from 0 up to the length.  The result
    is the array [[match; group 1; ...; group n]]. *)
Fixpoint search (r : regex) (ngroups : nat) (pos : nat) (rest : string)
    : option captures :=
  match matcher r pos rest (replicate ngroups None)
          (λ pos' _ caps', Some (pos', caps')) with
  | Some (e, caps) => Some (Some (substring 0 (e - pos) rest) :: caps)
  | None =>
      match rest with
      | String _ rest' => search r ngroups (S pos) rest'
      | EmptyString => None
      end
  end.

Definition exec (r : regex) (ngroups : nat) (s : string) : option captures :=
  search r ngroups 0 s.

(** [m[i]] on a match array. *)
Definition index (m : captures) (i : nat) : JS.value :=
  match m !! i with
  | Some (Some s) => JS.VStr s
  | _ => JS.VUndefined
  end.

End Regex.

Import JS.

#[global] Instance outcome_ret : MRet outcome := λ A a, Ret a.
#[global] Instance outcome_bind : MBind outcome :=
  λ A B f m, match m with
             | Ret a => f a
             | Throw e => Throw e
             end.

(** ** The risk assessor: [assessPatients] *)

(** The AGE block, as functions of [age = Number(p.age)]. *)
Definition ageValid (age : number) : bool := isFinite age.

Definition ageRisk (age : number) : Z :=
  if ageValid age then
    if ge age (lit 66) then 2
    else if ge age (lit 40) then 1
    else 0
  else 0.

(** The TEMP block, as functions of [temp = Number(p.temperature)];
    [99.6] is the double nearest to 996/10. *)
Definition lit_99_6 : number := of_decimal false 996 (-1).

Definition tempValid (temp : number) : bool := isFinite temp.

Definition tempRisk (temp : number) : Z :=
  if tempValid temp then
    if ge temp (lit 101) then 2
    else if ge temp lit_99_6 then 1
    else 0
  else 0.

(** The BLOOD PRESSURE block, as functions of
    [match = typeof bp === "string" ? bp.match(...) : null]. *)

(** [/^(\d{2,3})\/(\d{2,3})$/] *)
Definition bp_pattern : Regex.regex :=
  Regex.Seq Regex.Bol
    (Regex.Seq (Regex.Group 0 (Regex.Repeat 2 3 Regex.Digit))
       (Regex.Seq (Regex.Char "/")
          (Regex.Seq (Regex.Group 1 (Regex.Repeat 2 3 Regex.Digit))
             Regex.Eol))).

Definition bp_match (bp : value) : option Regex.captures :=
  match bp with
  | VStr s => Regex.exec bp_pattern 2 s
  | _ => None
  end.

Definition bpValid (match_ : option Regex.captures) : bool :=
  match match_ with
  | Some _ => true
  | None => false
  end.

Definition bpRisk (match_ : option Regex.captures) : outcome Z :=
  match match_ with
  | Some m =>
      sys ← Number (Regex.index m 1);
      dia ← Number (Regex.index m 2);
      mret (if ge sys (lit 140) || ge dia (lit 90) then 3
            else if ge sys (lit 130) || ge dia (lit 80) then 2
            else if ge sys (lit 120) && lt dia (lit 80) then 1
            else if lt sys (lit 120) && lt dia (lit 80) then 0
            else 0)
  | None => mret 0
  end.

(** The three arrays the loop pushes to, and the object returned. *)
Record alerts : Type := Alerts {
  highRiskPatients : list value;
  feverPatients : list value;
  dataQualityIssues : list value
}.

(** One iteration of [for (const p of patients)]. *)
Definition assess_record (a : alerts) (p : value) : outcome alerts :=
  id ← get p "patient_id";
  p_age ← get p "age";
  age ← Number p_age;
  p_temperature ← get p "temperature";
  temp ← Number p_temperature;
  bp ← get p "blood_pressure";
  let match_ := bp_match bp in
  bpRisk ← bpRisk match_;
  let totalRisk := ageRisk age + tempRisk temp + bpRisk in
  let highRisk :=
    if 4 <=? totalRisk then highRiskPatients a ++ [id]
    else highRiskPatients a in
  let fever :=
    if tempValid temp && ge temp lit_99_6 then feverPatients a ++ [id]
    else feverPatients a in
  let dataIssues :=
    if negb (bpValid match_) || negb (ageValid age) || negb (tempValid temp)
    then dataQualityIssues a ++ [id]
    else dataQualityIssues a in
  mret (Alerts highRisk fever dataIssues).

Fixpoint assess_loop (a : alerts) (patients : list value) : outcome alerts :=
  match patients with
  | [] => mret a
  | p :: rest => a' ← assess_record a p; assess_loop a' rest
  end.

Definition assessPatients (patients : list value) : outcome alerts :=
  assess_loop (Alerts [] [] []) patients.

(** ** The network side: observable events and the computation monad *)

Inductive level : Type := Log | Warn | Err.   (* console.log / warn / error *)

Inductive log_arg : Type :=
  | LStr (s : string)
  | LMessageOf (e : error).                   (* err.message *)

Record request_init : Type := RequestInit {
  headers : list (string * string)
}.

Inductive event : Type :=
  | EFetch (url : string) (options : request_init)
  | EWait (ms : Z)
  | EConsole (lvl : level) (args : list log_arg).

(** What has happened so far, oldest event first. *)
Definition trace : Type := list event.

(** A settled [Response]: its status and what [res.json()] settles to. *)
Record response : Type := Response {
  status : Z;
  json_body : outcome value
}.

Definition ok (res : response) : bool :=
  (200 <=? status res) && (status res <=? 299).

(** An asynchronous computation run to its end on one thread of control:
    from the events so far to a result and the events then.  The result is
    [None] when the fuel ran out before the computation settled. *)
Definition M (A : Type) : Type := trace → option (outcome A) * trace.

#[global] Instance M_ret : MRet M := λ A a t, (Some (Ret a), t).
#[global] Instance M_bind : MBind M :=
  λ A B f m t,
    match m t with
    | (Some (Ret a), t') => f a t'
    | (Some (Throw e), t') => (Some (Throw e), t')
    | (None, t') => (None, t')
    end.

Definition out_of_fuel {A : Type} : M A := λ t, (None, t).

Definition throw {A : Type} (e : error) : M A := λ t, (Some (Throw e), t).

Definition lift {A : Type} (o : outcome A) : M A := λ t, (Some o, t).

Definition try_catch {A : Type} (body : M A) (handler : error → M A) : M A :=
  λ t,
    match body t with
    | (Some (Throw e), t') => handler e t'
    | r => r
    end.

Definition console (lvl : level) (args : list log_arg) : M unit :=
  λ t, (Some (Ret ()), t ++ [EConsole lvl args]).

Definition wait (ms : Z) : M unit :=
  λ t, (Some (Ret ()), t ++ [EWait ms]).

Definition json (res : response) : M value := lift (json_body res).

Section Fetching.

(** The network: what the next [fetch] of a request settles to, given the
    events so far. *)
Variable net : trace → string → request_init → outcome response.

(** The engine: how many arguments it accepts in one call. *)
Variable max_arguments : Z.

Definition fetch (url : string) (options : request_init) : M response :=
  λ t, (Some (net t url options), t ++ [EFetch url options]).

(** The body of [while (true)] in [fetchWithRetry]; [attempt] is the counter
    before the increment, an integer that stays far below [2^53]. *)
Fixpoint fetchWithRetry_loop (fuel : nat) (url : string)
    (options : request_init) (attempt : Z) : M value :=
  match fuel with
  | O => out_of_fuel
  | S fuel' =>
      let attempt := attempt + 1 in
      res ← fetch url options;
      if status res =? 429 then
        console Warn
          [LStr ("Rate limit (429) on attempt " +:+ pretty attempt
                 +:+ ". Waiting 15s...")];;
        wait 15000;;
        fetchWithRetry_loop fuel' url options attempt
      else if (status res =? 500) || (status res =? 503) then
        console Warn
          [LStr ("Retryable error (" +:+ pretty (status res)
                 +:+ ") on attempt " +:+ pretty attempt
                 +:+ ". Waiting 1s...")];;
        wait 1000;;
        fetchWithRetry_loop fuel' url options attempt
      else if negb (ok res) then
        throw (Error ("Request failed with status " +:+ pretty (status res)))
      else
        data ← json res;
        mret data
  end.

Definition fetchWithRetry (fuel : nat) (url : string)
    (options : request_init) : M value :=
  fetchWithRetry_loop fuel url options 0.

Definition page_url (page : Z) : string :=
  "https://assessment.ksensetech.com/api/patients?page=" +:+ pretty page
  +:+ "&limit=20".

Definition page_options : request_init :=
  {| headers :=
       [("x-api-key", "ak_034df9cf16216ec83e065f8060ff92d03d7b0c98442baf24")] |}.

Definition fetchPatientsPage (fuel : nat) (page : Z) : M (list value) :=
  let url := page_url page in
  try_catch
    (response ← fetchWithRetry fuel url page_options;
     data ← lift (get response "data");
     let raw := nullish_or data (VArr []) in
     mret (if isArray raw then elements raw else []))
    (λ err,
       console Err
         [LStr ("Hard failure on page " +:+ pretty page +:+ ":");
          LMessageOf err];;
       mret []).

(** The body of [while (page <= 3)] in [fetchAllPatients]. *)
Fixpoint fetchAllPatients_loop (fuel : nat) (allPatients : list value)
    (page : Z) : M (list value) :=
  match fuel with
  | O => out_of_fuel
  | S fuel' =>
      if page <=? 3 then
        console Log [LStr ("Requesting page " +:+ pretty page +:+ "...")];;
        patients ← fetchPatientsPage fuel' page;
        match patients with
        | [] =>
            console Warn
              [LStr ("Page " +:+ pretty page
                     +:+ " returned no patients. Retrying...")];;
            fetchAllPatients_loop fuel' allPatients page
        | _ :: _ =>
            allPatients ← lift (push_spread max_arguments allPatients patients);
            console Log
              [LStr ("✅ Page " +:+ pretty page
                     +:+ " fetched. Total patients so far: "
                     +:+ pretty (length allPatients))];;
            let page := page + 1 in
            wait 1000;;
            fetchAllPatients_loop fuel' allPatients page
        end
      else
        console Log
          [LStr ("✅ Finished fetching " +:+ pretty (length allPatients)
                 +:+ " patients.")];;
        mret allPatients
  end.

Definition fetchAllPatients (fuel : nat) : M (list value) :=
  fetchAllPatients_loop fuel [] 1.

End Fetching.

(** The number of requests made so far. *)
Definition is_fetch (ev : event) : bool :=
  match ev with
  | EFetch _ _ => true
  | _ => false
  end.

Definition fetches (t : trace) : nat := length (List.filter is_fetch t).

(** A network that answers the successive requests from a fixed list, and
    fails once the list is used up. *)
Definition scripted (rs : list response)
    : trace → string → request_init → outcome response :=
  λ t _ _,
    match rs !! fetches t with
    | Some r => Ret r
    | None => Throw (Rejection "TypeError" "fetch failed")
    end.

(** Networks for examples: one that serves three given pages by URL, and
    one that answers every request with the same status and a null body. *)
Definition page_response (l : list value) : response :=
  {| status := 200; json_body := Ret (VObj {[ "data" := VArr l ]}) |}.

Definition three_pages (l1 l2 l3 : list value)
    : trace → string → request_init → outcome response :=
  λ _ url _,
    if String.eqb url (page_url 1) then Ret (page_response l1)
    else if String.eqb url (page_url 2) then Ret (page_response l2)
    else Ret (page_response l3).

Definition always_status (code : Z)
    : trace → string → request_init → outcome response :=
  λ _ _ _, Ret {| status := code; json_body := Ret VNull |}.

(** ** Vocabulary of the specification *)

(** A double as the language has it: the mantissa fills the precision, or
    the exponent is the least one. *)
Definition canonical (x : number) : Prop := valid_binary prec emax x = true.

(** The exact value of a finite Number, in units of [2^-1074], the least
    positive double; then as a rational. *)
Definition scaled (x : number) : Z :=
  match x with
  | S754_finite s m e => (if s then - Zpos m else Zpos m) * 2 ^ (e + 1074)
  | _ => 0
  end.

Definition value_of (x : number) : Q := scaled x # (2 ^ 1074)%positive.

(** The field of a record, [undefined] when it is absent. *)
Definition field (p : value) (name : string) : value :=
  match p with
  | VObj o => default VUndefined (o !! name)
  | _ => VUndefined
  end.

(** A PatientRecord: a value whose properties can be read, with an age and
    a temperature that can be coerced to Numbers, as every number, string,
    boolean, [null] and missing field can. *)
Definition is_record (p : value) : Prop :=
  p ≠ VUndefined ∧ p ≠ VNull
  ∧ unprintable (field p "age") = false
  ∧ unprintable (field p "temperature") = false.

Definition patient_id (p : value) : value := field p "patient_id".

(** The coerced age and temperature of a record, and its blood-pressure
    match. *)
Definition age_of (p : value) : number := number_of (field p "age").

Definition temperature_of (p : value) : number :=
  number_of (field p "temperature").

Definition bp_of (p : value) : option Regex.captures :=
  bp_match (field p "blood_pressure").

(** The blood-pressure risk as a number; the block never throws. *)
Definition bp_risk_of (match_ : option Regex.captures) : Z :=
  match bpRisk match_ with
  | Ret r => r
  | Throw _ => 0
  end.

Definition totalRisk (p : value) : Z :=
  ageRisk (age_of p) + tempRisk (temperature_of p) + bp_risk_of (bp_of p).

(** The three classifications, in the words of the specification. *)
Definition high_risk (p : value) : bool := 4 <=? totalRisk p.

Definition has_fever (p : value) : bool :=
  tempValid (temperature_of p) && ge (temperature_of p) lit_99_6.

Definition has_data_issue (p : value) : bool :=
  negb (ageValid (age_of p) && tempValid (temperature_of p)
        && bpValid (bp_of p)).

(** The identifiers of the records that satisfy a classification, in the
    order of the input. *)
Definition ids_where (f : value → bool) (patients : list value) : list value :=
  patient_id <$> List.filter f patients.

(** What one record contributes to the list of a classification. *)
Definition pushed (f : value → bool) (p : value) : list value :=
  if f p then [patient_id p] else [].

(** The number of validity flags that are set. *)
Definition valid_flags (p : value) : nat :=
  Nat.b2n (ageValid (age_of p)) + Nat.b2n (tempValid (temperature_of p))
  + Nat.b2n (bpValid (bp_of p)).

(** A string of two or three decimal digits, and the integer it writes. *)
Fixpoint all_digits (s : string) : bool :=
  match s with
  | EmptyString => true
  | String c s' => is_digit c && all_digits s'
  end.

Definition digits_2_3 (s : string) : Prop :=
  all_digits s = true ∧ (String.length s = 2 ∨ String.length s = 3)%nat.

Definition integer_of (s : string) : Z := Z.of_N (decimal_value s).

(** "SYS/DIA": two such integers with a slash between them, nothing else. *)
Definition bp_reading (s sys dia : string) : Prop :=
  s = sys +:+ "/" +:+ dia ∧ digits_2_3 sys ∧ digits_2_3 dia.

(** The risk bands in the order the specification lists them: the first
    band that applies wins. *)
Definition bp_band (sys dia : Z) : Z :=
  if (140 <=? sys) || (90 <=? dia) then 3
  else if (130 <=? sys) || (80 <=? dia) then 2
  else if (120 <=? sys) && (dia <? 80) then 1
  else 0.

(** Equality of Numbers as data is decidable. *)
#[global] Instance number_eq_dec : EqDecision number.
Proof. solve_decision. Defined.

(** All the strings of two or three decimal digits, and the thresholds the
    blood-pressure block compares with. *)
Definition digit_chars : list ascii :=
  ["0"; "1"; "2"; "3"; "4"; "5"; "6"; "7"; "8"; "9"]%char.

Definition digit_strings : list string :=
  (c1 ← digit_chars; c2 ← digit_chars; [String c1 (String c2 "")])
  ++ (c1 ← digit_chars; c2 ← digit_chars; c3 ← digit_chars;
      [String c1 (String c2 (String c3 ""))]).

Definition thresholds : list Z := [80; 90; 120; 130; 140].

(** The page fetch of [page] settles to the sequence [l] whenever it is
    made. *)
Definition page_returns
    (net : trace → string → request_init → outcome response)
    (page : Z) (l : list value) : Prop :=
  ∀ t, ∃ fuel t', fetchPatientsPage net fuel page t = (Some (Ret l), t').

(** The lines the collector writes to the console. *)
Definition requesting (page : Z) : event :=
  EConsole Log [LStr ("Requesting page " +:+ pretty page +:+ "...")].

Definition retrying (page : Z) : event :=
  EConsole Warn
    [LStr ("Page " +:+ pretty page +:+ " returned no patients. Retrying...")].

Definition page_fetched (page : Z) (total : nat) : event :=
  EConsole Log
    [LStr ("✅ Page " +:+ pretty page +:+ " fetched. Total patients so far: "
           +:+ pretty total)].

Definition finished (total : nat) : event :=
  EConsole Log
    [LStr ("✅ Finished fetching " +:+ pretty total +:+ " patients.")].

(** How many requests of [page] have been made. *)
Definition is_request_of (page : Z) (ev : event) : bool :=
  match ev with
  | EFetch url _ => String.eqb url (page_url page)
  | _ => false
  end.

Definition requests_of (page : Z) (t : trace) : nat :=
  length (List.filter (is_request_of page) t).

(** ** Further vocabulary: retries, waiting, reports *)

(** The statuses [fetchWithRetry] tries again on, and the cooldown of each. *)
Definition retryable (res : response) : bool :=
  (status res =? 429) || (status res =? 500) || (status res =? 503).

Definition cooldown (res : response) : Z :=
  if status res =? 429 then 15000 else 1000.

(** The warning written on the [attempt]-th request when its response is
    retried. *)
Definition retry_warning (attempt : Z) (res : response) : event :=
  EConsole Warn
    [LStr (if status res =? 429 then
             "Rate limit (429) on attempt " +:+ pretty attempt
             +:+ ". Waiting 15s..."
           else
             "Retryable error (" +:+ pretty (status res) +:+ ") on attempt "
             +:+ pretty attempt +:+ ". Waiting 1s...")].

(** The events of the requests answered by the responses [rs], all retried,
    the first being request number [attempt]. *)
Fixpoint retry_events (url : string) (options : request_init) (attempt : Z)
    (rs : list response) : trace :=
  match rs with
  | [] => []
  | r :: rs' =>
      EFetch url options :: retry_warning attempt r :: EWait (cooldown r)
      :: retry_events url options (attempt + 1) rs'
  end.

(** What a request that is not retried settles to: the parsed body of a
    success, an error with the status otherwise; [None] is a request that
    the scripted network leaves without an answer. *)
Definition settled (answer : option response) : outcome value :=
  match answer with
  | Some res =>
      if ok res then json_body res
      else Throw (Error ("Request failed with status " +:+ pretty (status res)))
  | None => Throw (Rejection "TypeError" "fetch failed")
  end.

(** The time spent in [wait], in milliseconds. *)
Definition wait_of (ev : event) : Z :=
  match ev with
  | EWait ms => ms
  | _ => 0
  end.

Definition waited (t : trace) : Z := foldr (λ ev acc, wait_of ev + acc) 0 t.

(** The requests in a stretch of events, and the request of a page. *)
Definition requests (t : trace) : list event := List.filter is_fetch t.

Definition page_request (page : Z) : event :=
  EFetch (page_url page) page_options.

(** An answer that [fetchWithRetry] turns into an error at once: a failed
    request, or a response that is neither retried nor a success. *)
Definition hard_failure (answer : outcome response) : Prop :=
  match answer with
  | Throw _ => True
  | Ret res => retryable res = false ∧ ok res = false
  end.

(** The first [k] non-empty sequences of a list of sequences, one after the
    other, if there are that many. *)
Fixpoint take_nonempty (k : nat) (ls : list (list value))
    : option (list value) :=
  match k, ls with
  | O, _ => Some []
  | S _, [] => None
  | S k', [] :: ls' => take_nonempty k ls'
  | S k', l :: ls' => (l ++.) <$> take_nonempty k' ls'
  end.

(** The requests of pages [k], [k + 1], ... up to 3, in that order. *)
Definition in_page_order (k : Z) (l : list event) : Prop :=
  ∃ n1 n2 n3 : nat,
    l = replicate n1 (page_request 1) ++ replicate n2 (page_request 2)
        ++ replicate n3 (page_request 3)
    ∧ (2 ≤ k → n1 = 0%nat) ∧ (3 ≤ k → n2 = 0%nat) ∧ (4 ≤ k → n3 = 0%nat).

(** The alerts of two batches, one after the other. *)
Definition merge (a b : alerts) : alerts :=
  {| highRiskPatients := highRiskPatients a ++ highRiskPatients b;
     feverPatients := feverPatients a ++ feverPatients b;
     dataQualityIssues := dataQualityIssues a ++ dataQualityIssues b |}.

(** ** The run: [main] *)

(** What [main] does once the alerts are made: it writes three console
    lines, each a label and an array, and starts the request that submits
    the results.  The body of the request is [JSON.stringify] of an object,
    kept here as its properties in order. *)
Record submission : Type := Submission {
  submit_url : string;
  submit_method : string;
  submit_headers : list (string * string);
  submit_body : list (string * list value)
}.

Inductive report : Type :=
  | RLog (label : string) (ids : list value)
  | RSubmit (request : submission).

Section Main.

Variable net : trace → string → request_init → outcome response.
Variable max_arguments : Z.

(** [main] up to the call of [fetch], which it does not await: the events
    are those of the collection, the result is what comes after them. *)
Definition main (fuel : nat) : M (list report) :=
  patients ← fetchAllPatients net max_arguments fuel;
  alerts ← lift (assessPatients patients);
  let results :=
    [("high_risk_patients", highRiskPatients alerts);
     ("fever_patients", feverPatients alerts);
     ("data_quality_issues", dataQualityIssues alerts)] in
  mret [RLog "High-Risk Patients:" (highRiskPatients alerts);
        RLog "Fever Patients:" (feverPatients alerts);
        RLog "Data Quality Issues:" (dataQualityIssues alerts);
        RSubmit
          {| submit_url :=
               "https://assessment.ksensetech.com/api/submit-assessment";
             submit_method := "POST";
             submit_headers :=
               [("Content-Type", "application/json");
                ("x-api-key",
                 "ak_034df9cf16216ec83e065f8060ff92d03d7b0c98442baf24")];
             submit_body := results |}].

End Main.

(** The two [then] callbacks on the submission: the body of the answer is
    parsed and written to the console with its label. *)
Definition submitted (answer : outcome response) : outcome (string * value) :=
  response ← answer;
  data ← json_body response;
  mret ("Assessment Results:", data).

(** The report of a classification of [patients]. *)
Definition reports_of (patients : list value) : list report :=
  let high := ids_where high_risk patients in
  let fever := ids_where has_fever patients in
  let issues := ids_where has_data_issue patients in
  [RLog "High-Risk Patients:" high;
   RLog "Fever Patients:" fever;
   RLog "Data Quality Issues:" issues;
   RSubmit
     {| submit_url := "https://assessment.ksensetech.com/api/submit-assessment";
        submit_method := "POST";
        submit_headers :=
          [("Content-Type", "application/json");
           ("x-api-key", "ak_034df9cf16216ec83e065f8060ff92d03d7b0c98442baf24")];
        submit_body :=
          [("high_risk_patients", high); ("fever_patients", fever);
           ("data_quality_issues", issues)] |}].

(** Readings written in decimal: a whole number, and a number with one
    decimal, as JSON strings; the bands of the two blocks on whole years
    and on tenths of a degree. *)
Definition one_decimal (a b : Z) : string := pretty a +:+ "." +:+ pretty b.

Definition years_band (years : Z) : Z :=
  if 66 <=? years then 2 else if 40 <=? years then 1 else 0.

Definition tenths_band (tenths : Z) : Z :=
  if 1010 <=? tenths then 2 else if 996 <=? tenths then 1 else 0.

(** * Properties *)

(** ** Comparing doubles *)

Section Numbers.

Lemma compare_antisym (x y : number) (c : comparison) :
  SFcompare x y = Some c → SFcompare y x = Some (CompOpp c).
Proof.
  destruct x as [sx|sx| |sx mx ex], y as [sy|sy| |sy my ey]; simpl;
    try discriminate;
    try (intros [= <-]; repeat case_match; reflexivity).
  intros [= <-]. f_equal.
  rewrite (Z.compare_antisym ex ey), !Pos.compare_cont_spec.
  rewrite (Pos.compare_antisym mx my).
  destruct sx, sy, (ex ?= ey), (mx ?= my)%positive; reflexivity.
Qed.

Lemma compare_finite (x y : number) :
  isFinite x = true → isFinite y = true → is_Some (SFcompare x y).
Proof. destruct x, y; simpl; try discriminate; eauto. Qed.

(** On finite numbers [>=] is the negation of [<]. *)
Lemma ge_is_not_lt (x y : number) :
  isFinite x = true → isFinite y = true → ge x y = negb (lt x y).
Proof.
  intros Hx Hy. destruct (compare_finite x y Hx Hy) as [c Hc].
  unfold ge, lt. rewrite Hc. by destruct c.
Qed.

Lemma lt_is_not_ge (x y : number) :
  isFinite x = true → isFinite y = true → lt x y = negb (ge x y).
Proof. intros Hx Hy. rewrite ge_is_not_lt by done. by destruct (lt x y). Qed.

Lemma digits2_size (p : positive) : digits2_pos p = Pos.size p.
Proof. induction p; simpl; congruence. Qed.

(** The mantissa of a canonical double has at most 53 bits, and exactly 53
    above the least exponent. *)
Lemma canonical_bounds (s : bool) (m : positive) (e : Z) :
  canonical (S754_finite s m e) →
  Zpos m < 2 ^ 53 ∧ -1074 ≤ e ∧ (-1074 < e → 2 ^ 52 ≤ Zpos m).
Proof.
  unfold canonical, valid_binary, bounded, canonical_mantissa, fexp, emin,
    prec, emax.
  rewrite digits2_size. intros [H1 _]%andb_prop. apply Z.eqb_eq in H1.
  pose proof (Pos.size_gt m) as Hgt. pose proof (Pos.size_le m) as Hle.
  assert (Hd : Z.pos (Pos.size m) ≤ 53) by lia.
  split; [|split; [lia|]].
  - apply Pos2Z.pos_lt_pos in Hgt. rewrite Pos2Z.inj_pow in Hgt.
    eapply Z.lt_le_trans; [exact Hgt|]. apply Z.pow_le_mono_r; lia.
  - intros He. assert (Hs : Z.pos (Pos.size m) = 53) by lia.
    apply Pos2Z.pos_le_pos in Hle. rewrite Pos2Z.inj_pow in Hle.
    rewrite Hs in Hle. change (2 ^ 53) with (2 * 2 ^ 52) in Hle.
    rewrite Pos2Z.inj_xO in Hle. lia.
Qed.

Lemma scaled_pos_lt (m1 : positive) (e1 : Z) (m2 : positive) (e2 : Z) :
  canonical (S754_finite false m1 e1) → canonical (S754_finite false m2 e2) →
  e1 < e2 → Zpos m1 * 2 ^ (e1 + 1074) < Zpos m2 * 2 ^ (e2 + 1074).
Proof.
  intros (Hm1 & He1 & _)%canonical_bounds (_ & _ & Hm2)%canonical_bounds Hlt.
  assert (He2 : -1074 < e2) by lia. specialize (Hm2 He2).
  assert (H0 : 0 < 2 ^ (e1 + 1074)) by (apply Z.pow_pos_nonneg; lia).
  replace (e2 + 1074) with ((e2 - e1 - 1) + 1 + (e1 + 1074)) by lia.
  rewrite (Z.pow_add_r 2 (e2 - e1 - 1 + 1) (e1 + 1074)),
    (Z.pow_add_r 2 (e2 - e1 - 1) 1) by lia.
  assert (H1 : 1 ≤ 2 ^ (e2 - e1 - 1))
    by (apply Z.pow_le_mono_r with (b := 0) (a := 2); lia).
  change (2 ^ 53) with (2 * 2 ^ 52) in Hm1. change (2 ^ 1) with 2.
  generalize dependent (2 ^ (e1 + 1074)).
  generalize dependent (2 ^ (e2 - e1 - 1)).
  generalize dependent (2 ^ 52). intros C Hm1 Hm2 K HK P HP.
  apply Z.lt_le_trans with (2 * C * P); [nia|].
  apply Z.le_trans with (2 * Z.pos m2 * P); [nia|].
  assert (0 ≤ Z.pos m2 * P) by nia. nia.
Qed.

(** The comparison of two canonical finite doubles is the comparison of
    their exact values. *)
Lemma compare_scaled (x y : number) :
  canonical x → canonical y → isFinite x = true → isFinite y = true →
  SFcompare x y = Some (scaled x ?= scaled y).
Proof.
  destruct x as [sx|sx| |sx mx ex], y as [sy|sy| |sy my ey];
    try discriminate; intros Hx Hy _ _;
    cbv beta iota delta [SFcompare scaled].
  - reflexivity.
  - f_equal. pose proof (canonical_bounds _ _ _ Hy) as (_ & He & _).
    assert (0 < 2 ^ (ey + 1074)) by (apply Z.pow_pos_nonneg; lia).
    destruct sy; symmetry; [apply Z.compare_gt_iff|apply Z.compare_lt_iff]; nia.
  - f_equal. pose proof (canonical_bounds _ _ _ Hx) as (_ & He & _).
    assert (0 < 2 ^ (ex + 1074)) by (apply Z.pow_pos_nonneg; lia).
    destruct sx; symmetry; [apply Z.compare_lt_iff|apply Z.compare_gt_iff]; nia.
  - f_equal.
    pose proof (canonical_bounds _ _ _ Hx) as (_ & Hex & _).
    pose proof (canonical_bounds _ _ _ Hy) as (_ & Hey & _).
    assert (0 < 2 ^ (ex + 1074)) by (apply Z.pow_pos_nonneg; lia).
    assert (0 < 2 ^ (ey + 1074)) by (apply Z.pow_pos_nonneg; lia).
    assert (Hpos : ∀ m1 e1 m2 e2,
      canonical (S754_finite false m1 e1) →
      canonical (S754_finite false m2 e2) →
      match e1 ?= e2 with
      | Lt => Lt
      | Gt => Gt
      | Eq => Pos.compare_cont Eq m1 m2
      end = (Zpos m1 * 2 ^ (e1 + 1074) ?= Zpos m2 * 2 ^ (e2 + 1074))).
    { intros m1 e1 m2 e2 H1 H2.
      destruct (Z.compare_spec e1 e2) as [->|Hlt|Hgt].
      - pose proof (canonical_bounds _ _ _ H2) as (_ & He & _).
        change (Pos.compare_cont Eq m1 m2) with (m1 ?= m2)%positive.
        rewrite Pos2Z.inj_compare.
        apply Zmult_compare_compat_r. apply Z.lt_gt, Z.pow_pos_nonneg; lia.
      - symmetry. apply Z.compare_lt_iff. by apply scaled_pos_lt.
      - symmetry. apply Z.compare_gt_iff. by apply scaled_pos_lt. }
    destruct sx, sy.
    + rewrite !Z.mul_opp_l, Z.compare_opp.
      rewrite <- (Hpos my ey mx ex) by done.
      change (Pos.compare_cont Eq mx my) with (mx ?= my)%positive.
      change (Pos.compare_cont Eq my mx) with (my ?= mx)%positive.
      rewrite (Z.compare_antisym ex ey), (Pos.compare_antisym mx my).
      by destruct (ex ?= ey), (mx ?= my)%positive.
    + symmetry. apply Z.compare_lt_iff. nia.
    + symmetry. apply Z.compare_gt_iff. nia.
    + by apply Hpos.
Qed.

Lemma value_of_le (x y : number) :
  (value_of x <= value_of y)%Q ↔ scaled x ≤ scaled y.
Proof.
  unfold value_of, Qle. cbn [Qnum Qden].
  split; intros H; [|by apply Z.mul_le_mono_nonneg_r].
  by apply Z.mul_le_mono_pos_r in H.
Qed.

Lemma value_of_lt (x y : number) :
  (value_of x < value_of y)%Q ↔ scaled x < scaled y.
Proof.
  unfold value_of, Qlt. cbn [Qnum Qden].
  split; intros H; [|by apply Z.mul_lt_mono_pos_r].
  by apply Z.mul_lt_mono_pos_r in H.
Qed.

(** [x >= y] and [x < y] on canonical finite doubles, as comparisons of the
    exact values. *)
Lemma ge_exact (x y : number) :
  canonical x → canonical y → isFinite x = true → isFinite y = true →
  ge x y = true ↔ (value_of y <= value_of x)%Q.
Proof.
  intros Hx Hy Fx Fy. rewrite value_of_le. unfold ge.
  rewrite (compare_scaled x y) by done.
  destruct (Z.compare_spec (scaled x) (scaled y)); split; (lia || done).
Qed.

Lemma lt_exact (x y : number) :
  canonical x → canonical y → isFinite x = true → isFinite y = true →
  lt x y = true ↔ (value_of x < value_of y)%Q.
Proof.
  intros Hx Hy Fx Fy. rewrite value_of_lt. unfold lt.
  rewrite (compare_scaled x y) by done.
  destruct (Z.compare_spec (scaled x) (scaled y)); split; (lia || done).
Qed.

(** The integer literals of the program denote their integers exactly. *)
Lemma lit_exact (z : Z) :
  z ∈ [40; 66; 80; 90; 101; 120; 130; 140] →
  canonical (lit z) ∧ isFinite (lit z) = true
  ∧ (value_of (lit z) == inject_Z z)%Q.
Proof.
  intros H. repeat (apply elem_of_cons in H as [->|H]);
    [by vm_compute.. | by apply elem_of_nil in H].
Qed.

(** [99.6] denotes the double nearest to 996/10: it lies below it by less
    than half the spacing [2^-46] of the doubles between 64 and 128. *)
Lemma lit_99_6_exact :
  canonical lit_99_6 ∧ isFinite lit_99_6 = true
  ∧ (value_of lit_99_6 < 996 # 10)%Q
  ∧ ((996 # 10) - value_of lit_99_6 < 1 # 2 ^ 47)%Q.
Proof. by vm_compute. Qed.

(** It is the double that the text [99.6] denotes as a string too. *)
Lemma lit_99_6_text : lit_99_6 = StringToNumber "99.6".
Proof. vm_compute. reflexivity. Qed.

(** So a value that is below 996/10 by [2^-47] or more is below it. *)
Lemma below_99_6 (x : number) :
  (value_of x <= (996 # 10) - (1 # 2 ^ 47))%Q →
  (value_of x < value_of lit_99_6)%Q.
Proof.
  destruct lit_99_6_exact as (_ & _ & _ & Hnear). revert Hnear.
  generalize (value_of x), (value_of lit_99_6). intros a b Hnear Hle. lra.
Qed.

Lemma lt_trans (x y z : number) :
  lt x y = true → lt y z = true → lt x z = true.
Proof.
  unfold lt.
  destruct x as [sx|sx| |sx mx ex], y as [sy|sy| |sy my ey],
    z as [sz|sz| |sz mz ez]; cbv beta iota delta [SFcompare];
    try discriminate; try reflexivity;
    repeat match goal with s : bool |- _ => destruct s end;
    try discriminate; try reflexivity.
  all: change (Pos.compare_cont Eq) with Pos.compare.
  all: destruct (Z.compare_spec ex ey), (Z.compare_spec ey ez),
         (Z.compare_spec ex ez);
    try discriminate; try reflexivity; try lia; subst.
  all: destruct (Pos.compare_spec mx my), (Pos.compare_spec my mz),
         (Pos.compare_spec mx mz);
    cbn [CompOpp]; try discriminate; try reflexivity; try lia.
Qed.

(** A number below the lower of two thresholds is not at or above the
    higher one. *)
Lemma below_both (x lo hi : number) :
  isFinite x = true → isFinite hi = true →
  lt lo hi = true → lt x lo = true → ge x hi = false.
Proof.
  intros Fx Fhi Hlh Hx. rewrite ge_is_not_lt by done.
  by rewrite (lt_trans x lo hi).
Qed.

End Numbers.

(** ** Coercion *)

Section Coercion.

(** Every primitive value coerces to a Number. *)
Lemma Number_primitive (v : value) :
  (∀ l, v ≠ VArr l) → (∀ o, v ≠ VObj o) → Number v = Ret (number_of v).
Proof. intros Harr Hobj. destruct v; try done; naive_solver. Qed.

(** An object with a property of its own called [toString] does not. *)
Lemma Number_unprintable (o : gmap string value) :
  is_Some (o !! "toString") → Number (VObj o) = Throw TypeError_primitive.
Proof. intros [v Hv]. unfold Number, ToNumber. simpl. by rewrite Hv. Qed.

Lemma Number_printable (v : value) :
  unprintable v = false → Number v = Ret (number_of v).
Proof. unfold Number, ToNumber. by intros ->. Qed.

Lemma Number_inv (v : value) (x : number) :
  Number v = Ret x → unprintable v = false ∧ x = number_of v.
Proof.
  unfold Number, ToNumber. destruct (unprintable v); [done|].
  by intros [= <-].
Qed.

End Coercion.

(** ** The age and temperature blocks *)

Section Bands.

(** A two-threshold band, as both blocks compute it. *)
Lemma two_thresholds (x lo hi : number) :
  isFinite x = true → isFinite lo = true → isFinite hi = true →
  lt lo hi = true →
  let risk := if ge x hi then 2 else if ge x lo then 1 else 0 in
  (ge x hi = true → risk = 2)
  ∧ (ge x lo = true → lt x hi = true → risk = 1)
  ∧ (lt x lo = true → risk = 0).
Proof.
  intros Fx Flo Fhi Hlh risk. subst risk. split_and!.
  - by intros ->.
  - intros Hlo Hhi. rewrite lt_is_not_ge in Hhi by done.
    apply negb_true_iff in Hhi. by rewrite Hhi, Hlo.
  - intros Hlo. rewrite (below_both x lo hi) by done.
    rewrite lt_is_not_ge in Hlo by done. apply negb_true_iff in Hlo.
    by rewrite Hlo.
Qed.

(** C4.  When [Number(p.age)] returns [age], the age is valid exactly when
    [age] is finite.  A valid age gives risk 2 from 66 up, risk 1 from 40
    up to but not including 66, and risk 0 below 40, both for the
    comparisons of the language and, on a canonical double, for its exact
    value.  An invalid age gives risk 0 with [ageValid] false. *)
Theorem age_risk_bands (p : value) (age : number) :
  Number (field p "age") = Ret age →
  age = age_of p
  ∧ (ageValid age = true ↔ isFinite age = true)
  ∧ (ageValid age = true →
       (ge age (lit 66) = true → ageRisk age = 2)
       ∧ (ge age (lit 40) = true → lt age (lit 66) = true → ageRisk age = 1)
       ∧ (lt age (lit 40) = true → ageRisk age = 0)
       ∧ (canonical age →
            ((66 <= value_of age)%Q → ageRisk age = 2)
            ∧ ((40 <= value_of age)%Q → (value_of age < 66)%Q →
               ageRisk age = 1)
            ∧ ((value_of age < 40)%Q → ageRisk age = 0)))
  ∧ (isFinite age = false → ageValid age = false ∧ ageRisk age = 0).
Proof.
  intros [_ Hage]%Number_inv. split_and!.
  - done.
  - done.
  - intros Hv. assert (Fx : isFinite age = true) by done.
    destruct (lit_exact 66) as (C66 & F66 & V66); [set_solver|].
    destruct (lit_exact 40) as (C40 & F40 & V40); [set_solver|].
    destruct (two_thresholds age (lit 40) (lit 66) Fx F40 F66 eq_refl)
      as (H2 & H1 & H0).
    unfold ageRisk. rewrite Hv.
    split_and!; [done..|].
    intros Cx. split_and!.
    + intros H. apply H2, ge_exact; [done..|]. by rewrite V66.
    + intros Hlo Hhi.
      apply H1; [apply ge_exact|apply lt_exact]; try assumption.
      * by rewrite V40.
      * by rewrite V66.
    + intros H. apply H0, lt_exact; [done..|]. by rewrite V40.
  - intros Hv. unfold ageRisk, ageValid. by rewrite Hv.
Qed.

(** The record [{age: 70}] is valid and in the highest band. *)
Lemma age_risk_bands_witness :
  ageValid (lit 70) = true ∧ ageRisk (lit 70) = 2.
Proof.
  destruct (age_risk_bands (VObj {[ "age" := VNum (lit 70) ]}) (lit 70))
    as (_ & _ & H & _); [reflexivity|].
  split; [reflexivity|].
  destruct (H eq_refl) as (H2 & _). apply H2. vm_compute. reflexivity.
Defined.

(** Temperatures written with one decimal, as a JSON string and as a JSON
    number: the nearest doubles fall in the bands of the tenths. *)
Lemma tenths_of_degrees (a b : Z) :
  0 ≤ a ≤ 999 → 0 ≤ b ≤ 9 →
  let temp := of_decimal false (Z.to_N (10 * a + b)) (-1) in
  number_of (VStr (one_decimal a b)) = number_of (VNum temp)
  ∧ tempValid (number_of (VNum temp)) = true
  ∧ tempRisk (number_of (VNum temp)) = tenths_band (10 * a + b)
  ∧ ge (number_of (VNum temp)) lit_99_6 = (996 <=? 10 * a + b).
Proof.
  intros Ha Hb.
  assert (Hall : forallb
    (λ a, forallb
      (λ b,
         let temp := of_decimal false (Z.to_N (10 * a + b)) (-1) in
         bool_decide (number_of (VStr (one_decimal a b))
                      = number_of (VNum temp))
         && tempValid (number_of (VNum temp))
         && (tempRisk (number_of (VNum temp)) =? tenths_band (10 * a + b))
         && Bool.eqb (ge (number_of (VNum temp)) lit_99_6)
              (996 <=? 10 * a + b))
      (seqZ 0 10))
    (seqZ 0 1000) = true) by (vm_compute; reflexivity).
  rewrite forallb_forall in Hall.
  assert (Hina : In a (seqZ 0 1000))
    by (apply list_elem_of_In, elem_of_seqZ; lia).
  specialize (Hall a Hina). rewrite forallb_forall in Hall.
  assert (Hinb : In b (seqZ 0 10))
    by (apply list_elem_of_In, elem_of_seqZ; lia).
  specialize (Hall b Hinb). cbv zeta in Hall.
  apply andb_prop in Hall as [[[H1 H2]%andb_prop H3]%andb_prop H4].
  apply bool_decide_eq_true in H1. apply Z.eqb_eq in H3.
  apply Bool.eqb_prop in H4. done.
Qed.

(** C5.  When [Number(p.temperature)] returns [temp], the temperature is
    valid exactly when [temp] is finite.  A valid temperature gives risk 2
    from 101 up, risk 1 from 99.6 up to but not including 101, and risk 0
    below 99.6.  Here 99.6 is the double that the literal and the text
    [99.6] denote: it lies below 996/10 by less than [2^-47].  So a
    canonical double has risk 1 when its value is at least 996/10 and
    below 101, and risk 0 when its value is below 996/10 by [2^-47] or
    more; and a temperature written with one decimal has the risk of its
    tenths: 2 from 1010, 1 from 996, 0 below.  An invalid temperature gives
    risk 0 with [tempValid] false. *)
Theorem temp_risk_bands (p : value) (temp : number) :
  Number (field p "temperature") = Ret temp →
  temp = temperature_of p
  ∧ (tempValid temp = true ↔ isFinite temp = true)
  ∧ (tempValid temp = true →
       (ge temp (lit 101) = true → tempRisk temp = 2)
       ∧ (ge temp lit_99_6 = true → lt temp (lit 101) = true →
          tempRisk temp = 1)
       ∧ (lt temp lit_99_6 = true → tempRisk temp = 0)
       ∧ (canonical temp →
            ((101 <= value_of temp)%Q → tempRisk temp = 2)
            ∧ ((value_of lit_99_6 <= value_of temp)%Q →
               (value_of temp < 101)%Q → tempRisk temp = 1)
            ∧ ((996 # 10 <= value_of temp)%Q →
               (value_of temp < 101)%Q → tempRisk temp = 1)
            ∧ ((value_of temp < value_of lit_99_6)%Q → tempRisk temp = 0)
            ∧ ((value_of temp <= (996 # 10) - (1 # 2 ^ 47))%Q →
               tempRisk temp = 0)))
  ∧ (isFinite temp = false → tempValid temp = false ∧ tempRisk temp = 0)
  ∧ (canonical lit_99_6 ∧ isFinite lit_99_6 = true
     ∧ lit_99_6 = StringToNumber "99.6"
     ∧ (value_of lit_99_6 < 996 # 10)%Q
     ∧ ((996 # 10) - value_of lit_99_6 < 1 # 2 ^ 47)%Q)
  ∧ (∀ a b, 0 ≤ a ≤ 999 → 0 ≤ b ≤ 9 →
       field p "temperature" = VStr (one_decimal a b)
       ∨ field p "temperature"
         = VNum (of_decimal false (Z.to_N (10 * a + b)) (-1)) →
       tempValid temp = true ∧ tempRisk temp = tenths_band (10 * a + b)).
Proof.
  intros [_ Htemp]%Number_inv.
  refine (conj _ (conj _ (conj _ (conj _ (conj _ _))))).
  - done.
  - done.
  - intros Hv. assert (Fx : isFinite temp = true) by done.
    destruct (lit_exact 101) as (C101 & F101 & V101); [set_solver|].
    destruct lit_99_6_exact as (C99 & F99 & Hbelow & _).
    destruct (two_thresholds temp lit_99_6 (lit 101) Fx F99 F101 eq_refl)
      as (H2 & H1 & H0).
    unfold tempRisk. rewrite Hv.
    split_and!; [done..|].
    intros Cx.
    assert (Hmid : (value_of lit_99_6 <= value_of temp)%Q →
                   (value_of temp < 101)%Q →
                   (if ge temp (lit 101) then 2
                    else if ge temp lit_99_6 then 1 else 0) = 1).
    { intros Hlo Hhi.
      apply H1; [apply ge_exact|apply lt_exact]; try assumption.
      by rewrite V101. }
    assert (Hlow : (value_of temp < value_of lit_99_6)%Q →
                   (if ge temp (lit 101) then 2
                    else if ge temp lit_99_6 then 1 else 0) = 0).
    { intros H. apply H0, lt_exact; assumption. }
    refine (conj _ (conj _ (conj _ (conj _ _)))).
    + intros H. apply H2, ge_exact; [done..|]. by rewrite V101.
    + exact Hmid.
    + intros Hlo. apply Hmid. apply Qlt_le_weak.
      apply Qlt_le_trans with (996 # 10)%Q; [exact Hbelow|exact Hlo].
    + exact Hlow.
    + intros H. apply Hlow, below_99_6. exact H.
  - intros Hv. unfold tempRisk, tempValid. by rewrite Hv.
  - destruct lit_99_6_exact as (C99 & F99 & Hbelow & Hnear).
    refine (conj C99 (conj F99 (conj lit_99_6_text (conj Hbelow Hnear)))).
  - intros a b Ha Hb Hfield.
    destruct (tenths_of_degrees a b Ha Hb) as (Tstr & Tvalid & Trisk & _).
    subst temp. destruct Hfield as [-> | ->]; rewrite ?Tstr; by split.
Qed.

(** The records [{temperature: "99.6"}] and [{temperature: "99.5"}] are
    valid, the first in the middle band and the second in the low one. *)
Lemma temp_risk_bands_witness :
  (tempValid (StringToNumber "99.6") = true
   ∧ tempRisk (StringToNumber "99.6") = 1)
  ∧ (tempValid (StringToNumber "99.5") = true
     ∧ tempRisk (StringToNumber "99.5") = 0).
Proof.
  split.
  - destruct (temp_risk_bands (VObj {[ "temperature" := VStr "99.6" ]})
                (StringToNumber "99.6")) as (_ & _ & H & _); [reflexivity|].
    split; [reflexivity|].
    destruct (H eq_refl) as (_ & H1 & _). apply H1; vm_compute; reflexivity.
  - destruct (temp_risk_bands (VObj {[ "temperature" := VStr "99.5" ]})
                (StringToNumber "99.5")) as (_ & _ & _ & _ & _ & H);
      [reflexivity|].
    apply (H 99 5); [lia..|]. left. reflexivity.
Defined.

End Bands.

(** ** The blood-pressure block *)

Section BloodPressure.

#[local] Arguments Ascii.eqb : simpl never.
#[local] Arguments is_digit : simpl never.

Lemma search_off_start (rest : string) (pos : nat) :
  pos ≠ 0%nat → Regex.search bp_pattern 2 pos rest = None.
Proof.
  revert pos. induction rest as [|c rest IH]; intros pos Hpos.
  - simpl. destruct pos; [done|]. reflexivity.
  - simpl. destruct pos; [done|]. simpl. apply IH. done.
Qed.

Lemma exec_bp_pattern (s : string) :
  Regex.exec bp_pattern 2 s =
  match Regex.matcher bp_pattern 0 s [None; None]
          (λ pos' _ caps', Some (pos', caps')) with
  | Some (e, caps) => Some (Some (substring 0 e s) :: caps)
  | None => None
  end.
Proof.
  unfold Regex.exec. destruct s as [|c s].
  - reflexivity.
  - cbn [Regex.search].
    change (replicate 2 None) with ([None; None] : Regex.captures).
    destruct (Regex.matcher _ _ _ _ _) as [[e caps]|]; [by rewrite Nat.sub_0_r|].
    by apply search_off_start.
Qed.

Ltac split_chars :=
  repeat (match goal with
          | |- context [is_digit ?c] => destruct (is_digit c) eqn:?
          | |- context [Ascii.eqb "/" ?c] =>
              destruct (Ascii.eqb_spec "/" c); subst
          end; simpl).

Lemma bp_match_sound (s : string) (m : Regex.captures) :
  Regex.exec bp_pattern 2 s = Some m →
  ∃ sys dia, bp_reading s sys dia ∧ m = [Some s; Some sys; Some dia].
Proof.
  rewrite exec_bp_pattern.
  destruct s as [|c1 [|c2 [|c3 [|c4 [|c5 [|c6 [|c7 [|c8 s]]]]]]]]; simpl;
    split_chars; try discriminate.
  all: intros [= <-]; eexists _, _; split; [|reflexivity].
  all: unfold bp_reading, digits_2_3; simpl.
  all: repeat match goal with H : is_digit _ = true |- _ => rewrite H; clear H end.
  all: auto.
Qed.

Lemma bp_match_complete (s sys dia : string) :
  bp_reading s sys dia →
  Regex.exec bp_pattern 2 s = Some [Some s; Some sys; Some dia].
Proof.
  intros (-> & [Hs Hls] & [Hd Hld]). rewrite exec_bp_pattern.
  destruct sys as [|a1 [|a2 [|a3 [|a4 sys]]]]; simpl in Hls; try lia;
    destruct dia as [|b1 [|b2 [|b3 [|b4 dia]]]]; simpl in Hld; try lia;
    simpl in Hs, Hd;
    repeat (apply andb_prop in Hs as [? Hs]);
    repeat (apply andb_prop in Hd as [? Hd]);
    simpl;
    repeat match goal with H : is_digit _ = true |- _ => rewrite H end;
    simpl; split_chars; try done.
  all: match goal with H : is_digit "/" = true |- _ => by vm_compute in H end.
Qed.

Lemma is_digit_chars (c : ascii) : is_digit c = true → c ∈ digit_chars.
Proof.
  intros H.
  assert (Hb : existsb (Ascii.eqb c) digit_chars = true).
  { destruct c as [[] [] [] [] [] [] [] []]; vm_compute in H |- *; congruence. }
  apply existsb_exists in Hb as (d & Hd & ->%Ascii.eqb_eq).
  by apply list_elem_of_In.
Qed.

Lemma digits_2_3_strings (d : string) : digits_2_3 d → d ∈ digit_strings.
Proof.
  intros [Hd Hlen]. unfold digit_strings. apply elem_of_app.
  destruct d as [|c1 [|c2 [|c3 [|c4 d]]]]; simpl in Hlen; try lia;
    simpl in Hd; repeat (apply andb_prop in Hd as [?%is_digit_chars Hd]).
  - left. apply list_elem_of_bind. exists c1. split; [|done].
    apply list_elem_of_bind. exists c2. split; [|done].
    by apply list_elem_of_singleton.
  - right. apply list_elem_of_bind. exists c1. split; [|done].
    apply list_elem_of_bind. exists c2. split; [|done].
    apply list_elem_of_bind. exists c3. split; [|done].
    by apply list_elem_of_singleton.
Qed.

(** A string of two or three digits converts to the double of the integer
    it writes, which is below 1000. *)
Lemma digits_number (d : string) :
  digits_2_3 d →
  StringToNumber d = lit (integer_of d) ∧ 0 ≤ integer_of d ≤ 999.
Proof.
  intros Hd%digits_2_3_strings%list_elem_of_In.
  assert (Hall : forallb
    (λ d, bool_decide (StringToNumber d = lit (integer_of d))
          && (0 <=? integer_of d) && (integer_of d <=? 999))
    digit_strings = true) by (vm_compute; reflexivity).
  rewrite forallb_forall in Hall. specialize (Hall d Hd).
  apply andb_prop in Hall as [[H1%bool_decide_eq_true H2]%andb_prop H3].
  split; [done|lia].
Qed.

(** The comparisons of the block on the doubles of small integers are the
    comparisons of the integers. *)
Lemma small_compare (n c : Z) :
  0 ≤ n ≤ 999 → In c thresholds →
  ge (lit n) (lit c) = (c <=? n) ∧ lt (lit n) (lit c) = (n <? c).
Proof.
  intros Hn Hc.
  assert (Hall : forallb
    (λ n, forallb (λ c, Bool.eqb (ge (lit n) (lit c)) (c <=? n)
                        && Bool.eqb (lt (lit n) (lit c)) (n <? c))
            thresholds)
    (seqZ 0 1000) = true) by (vm_compute; reflexivity).
  rewrite forallb_forall in Hall.
  assert (Hin : In n (seqZ 0 1000)) by (apply list_elem_of_In, elem_of_seqZ; lia).
  specialize (Hall n Hin). rewrite forallb_forall in Hall.
  specialize (Hall c Hc).
  apply andb_prop in Hall as [H1%Bool.eqb_prop H2%Bool.eqb_prop]. done.
Qed.

Lemma bpRisk_reading (s sys dia : string) :
  bp_reading s sys dia →
  bpValid (bp_match (VStr s)) = true
  ∧ bpRisk (bp_match (VStr s))
    = Ret (bp_band (integer_of sys) (integer_of dia)).
Proof.
  intros Hr. pose proof (bp_match_complete s sys dia Hr) as Hm.
  destruct Hr as (_ & Hs & Hd).
  destruct (digits_number sys Hs) as [Ns Bs].
  destruct (digits_number dia Hd) as [Nd Bd].
  unfold bpValid, bpRisk, bp_match. rewrite Hm. split; [done|].
  unfold Regex.index. simpl lookup.
  rewrite !Number_printable by done.
  cbn [mbind outcome_bind mret outcome_ret number_of]. rewrite Ns, Nd.
  f_equal.
  destruct (small_compare (integer_of sys) 140 Bs) as [-> _]; [simpl; tauto|].
  destruct (small_compare (integer_of sys) 130 Bs) as [-> _]; [simpl; tauto|].
  destruct (small_compare (integer_of sys) 120 Bs) as [-> ->]; [simpl; tauto|].
  destruct (small_compare (integer_of dia) 90 Bd) as [-> _]; [simpl; tauto|].
  destruct (small_compare (integer_of dia) 80 Bd) as [-> ->]; [simpl; tauto|].
  unfold bp_band. repeat case_match; reflexivity.
Qed.

(** C2.  The blood pressure of a record is valid exactly when it is a string
    "SYS/DIA" of two integers of two or three digits each and nothing else.
    On such a string the risk is that of the first band that applies, in
    the order 3, 2, 1, 0: the four bands leave no reading out, and a
    systolic in [120,130) with a diastolic in [80,90) falls in band 2.  An
    invalid blood pressure gives risk 0 with [bpValid] false. *)
Theorem bp_risk_bands (p : value) :
  let bp := field p "blood_pressure" in
  let match_ := bp_match bp in
  (bpValid match_ = true ↔ ∃ s sys dia, bp = VStr s ∧ bp_reading s sys dia)
  ∧ (∀ s sys dia, bp = VStr s → bp_reading s sys dia →
       let S := integer_of sys in
       let D := integer_of dia in
       match_ = Some [Some s; Some sys; Some dia]
       ∧ bpRisk match_ = Ret (bp_band S D)
       ∧ (140 ≤ S ∨ 90 ≤ D → bpRisk match_ = Ret 3)
       ∧ (¬ (140 ≤ S ∨ 90 ≤ D) → 130 ≤ S ∨ 80 ≤ D → bpRisk match_ = Ret 2)
       ∧ (¬ (140 ≤ S ∨ 90 ≤ D) → ¬ (130 ≤ S ∨ 80 ≤ D) →
          120 ≤ S ∧ D < 80 → bpRisk match_ = Ret 1)
       ∧ (¬ (140 ≤ S ∨ 90 ≤ D) → ¬ (130 ≤ S ∨ 80 ≤ D) →
          ¬ (120 ≤ S ∧ D < 80) →
          (S < 120 ∧ D < 80) ∧ bpRisk match_ = Ret 0)
       ∧ (120 ≤ S < 130 → 80 ≤ D < 90 → bpRisk match_ = Ret 2))
  ∧ ((¬ ∃ s sys dia, bp = VStr s ∧ bp_reading s sys dia) →
     bpValid match_ = false ∧ bpRisk match_ = Ret 0).
Proof.
  intros bp match_. subst match_. split_and!.
  - split.
    + unfold bpValid, bp_match. destruct bp as [| | | |s| |]; try done.
      destruct (Regex.exec bp_pattern 2 s) as [m|] eqn:Hm; [|done].
      intros _. apply bp_match_sound in Hm as (sys & dia & Hr & _). eauto.
    + intros (s & sys & dia & -> & Hr). by apply (bpRisk_reading s sys dia).
  - intros s sys dia -> Hr S D.
    destruct (bpRisk_reading s sys dia Hr) as [_ ->]. fold S D.
    split; [by apply bp_match_complete|].
    unfold bp_band.
    split_and!; [done|..]; intros; repeat case_match;
      try split; first [done | lia | exfalso; lia].
  - intros Hno. unfold bpValid, bpRisk.
    destruct (bp_match bp) as [m|] eqn:Hm; [|done].
    destruct Hno. unfold bp_match in Hm. destruct bp as [| | | |s| |]; try done.
    apply bp_match_sound in Hm as (sys & dia & Hr & _). eauto.
Qed.

(** The reading "125/85" is valid and falls in band 2 by its diastolic. *)
Lemma bp_risk_bands_witness :
  bpRisk (bp_match (VStr "125/85")) = Ret 2.
Proof.
  destruct (bp_risk_bands (VObj {[ "blood_pressure" := VStr "125/85" ]}))
    as (_ & H & _).
  destruct (H "125/85" "125" "85") as (_ & _ & _ & _ & _ & _ & H2).
  - reflexivity.
  - unfold bp_reading, digits_2_3. simpl. auto.
  - apply H2; vm_compute; split; congruence.
Defined.

End BloodPressure.


(** ** The assessor loop *)

Section Assessor.

Lemma get_record (p : value) (name : string) :
  is_record p → get p name = Ret (field p name).
Proof. intros (H1 & H2 & _). by destruct p. Qed.

(** The blood-pressure block never throws: a capture is a string or
    [undefined]. *)
Lemma bpRisk_returns (match_ : option Regex.captures) :
  bpRisk match_ = Ret (bp_risk_of match_).
Proof.
  unfold bp_risk_of. destruct match_ as [m|]; [|done]. unfold bpRisk.
  assert (Hidx : ∀ i, unprintable (Regex.index m i) = false).
  { intros i. unfold Regex.index. by repeat case_match. }
  by rewrite !Number_printable.
Qed.

Lemma assess_record_spec (a : alerts) (p : value) :
  is_record p →
  assess_record a p =
  Ret {| highRiskPatients := highRiskPatients a ++ pushed high_risk p;
         feverPatients := feverPatients a ++ pushed has_fever p;
         dataQualityIssues := dataQualityIssues a ++ pushed has_data_issue p |}.
Proof.
  intros Hp. pose proof Hp as (_ & _ & Hage & Htemp). unfold assess_record.
  repeat (first [ rewrite get_record by done
                | rewrite Number_printable by done
                | rewrite bpRisk_returns ];
          cbn [mbind outcome_bind mret outcome_ret]).
  f_equal.
  unfold pushed, high_risk, has_fever, has_data_issue, totalRisk, patient_id.
  fold (age_of p) (temperature_of p) (bp_of p).
  f_equal.
  - case_match; [done|by rewrite app_nil_r].
  - case_match; [done|by rewrite app_nil_r].
  - destruct (ageValid _), (tempValid _), (bpValid _); simpl;
      by rewrite ?app_nil_r.
Qed.

Lemma ids_where_cons (f : value → bool) (p : value) (ps : list value) :
  ids_where f (p :: ps) = pushed f p ++ ids_where f ps.
Proof. unfold ids_where, pushed. simpl. by destruct (f p). Qed.

Lemma assess_loop_spec (a : alerts) (ps : list value) :
  Forall is_record ps →
  assess_loop a ps =
  Ret {| highRiskPatients := highRiskPatients a ++ ids_where high_risk ps;
         feverPatients := feverPatients a ++ ids_where has_fever ps;
         dataQualityIssues :=
           dataQualityIssues a ++ ids_where has_data_issue ps |}.
Proof.
  intros Hps. revert a. induction Hps as [|p ps Hp Hps IH]; intros a.
  - simpl. unfold ids_where. simpl. rewrite !app_nil_r. by destruct a.
  - cbn [assess_loop]. rewrite assess_record_spec by done.
    cbn [mbind outcome_bind]. rewrite IH.
    cbn [highRiskPatients feverPatients dataQualityIssues].
    by rewrite !ids_where_cons, !app_assoc.
Qed.

Lemma assessPatients_spec (ps : list value) :
  Forall is_record ps →
  assessPatients ps =
  Ret {| highRiskPatients := ids_where high_risk ps;
         feverPatients := ids_where has_fever ps;
         dataQualityIssues := ids_where has_data_issue ps |}.
Proof. intros Hps. unfold assessPatients. by rewrite assess_loop_spec. Qed.

Lemma ageRisk_range (age : number) :
  0 ≤ ageRisk age ≤ 2 ∧ (ageValid age = false → ageRisk age = 0).
Proof. unfold ageRisk. repeat case_match; split; (lia || done). Qed.

Lemma tempRisk_range (temp : number) :
  0 ≤ tempRisk temp ≤ 2 ∧ (tempValid temp = false → tempRisk temp = 0).
Proof. unfold tempRisk. repeat case_match; split; (lia || done). Qed.

Lemma bpRisk_range (match_ : option Regex.captures) :
  0 ≤ bp_risk_of match_ ≤ 3
  ∧ (bpValid match_ = false → bp_risk_of match_ = 0).
Proof.
  unfold bp_risk_of, bpValid.
  destruct match_ as [m|]; [|split; [cbn; lia|done]].
  unfold bpRisk.
  assert (Hidx : ∀ i, unprintable (Regex.index m i) = false).
  { intros i. unfold Regex.index. by repeat case_match. }
  rewrite !Number_printable by done.
  cbn [mbind outcome_bind mret outcome_ret].
  repeat case_match; split; (lia || done).
Qed.

Lemma filter_sublist (f : value → bool) (ps : list value) :
  List.filter f ps `sublist_of` ps.
Proof.
  induction ps as [|p ps IH]; simpl; [constructor|].
  destruct (f p); by constructor.
Qed.

Lemma ids_where_sublist (f : value → bool) (ps : list value) :
  ids_where f ps `sublist_of` patient_id <$> ps.
Proof. unfold ids_where. apply fmap_sublist, filter_sublist. Qed.

Lemma ids_where_elem (f : value → bool) (ps : list value) (id : value) :
  id ∈ ids_where f ps ↔ ∃ p, p ∈ ps ∧ patient_id p = id ∧ f p = true.
Proof.
  unfold ids_where. rewrite list_elem_of_fmap. split.
  - intros (p & -> & Hp%list_elem_of_In%filter_In). destruct Hp as [Hp Hf].
    exists p. by rewrite list_elem_of_In.
  - intros (p & Hp & <- & Hf). exists p. split; [done|].
    apply list_elem_of_In, filter_In. by rewrite <- list_elem_of_In.
Qed.

(** C1.  On records, each iteration of [assessPatients] pushes the patient
    identifier to the high-risk list exactly when the three risks add up to
    4 or more, an invalid component counting for 0, to the fever list
    exactly when the temperature is valid and at least 99.6, and to the
    data-quality list exactly when one of the three validity flags is
    false; so the three lists returned are the identifiers of the records
    that qualify, in input order.  Here 99.6 is the double that the literal
    and the text [99.6] denote, below 996/10 by less than [2^-47]: a valid
    canonical temperature is a fever when its value is at least 996/10 and
    is none when its value is below 996/10 by [2^-47] or more, and a
    temperature written with one decimal is a fever exactly from 99.6 on.
    A record with all three fields invalid has total risk 0 and goes to
    the data-quality list only. *)
Theorem classification (patients : list value) :
  Forall is_record patients →
  assessPatients patients =
    Ret {| highRiskPatients := ids_where high_risk patients;
           feverPatients := ids_where has_fever patients;
           dataQualityIssues := ids_where has_data_issue patients |}
  ∧ ∀ p, p ∈ patients →
      let age := age_of p in
      let temp := temperature_of p in
      let match_ := bp_of p in
      (Number (field p "age") = Ret age
       ∧ Number (field p "temperature") = Ret temp)
      ∧ (∀ a, assess_record a p =
         Ret {| highRiskPatients := highRiskPatients a ++ pushed high_risk p;
                feverPatients := feverPatients a ++ pushed has_fever p;
                dataQualityIssues :=
                  dataQualityIssues a ++ pushed has_data_issue p |})
      ∧ (∃ risk, bpRisk match_ = Ret risk
           ∧ (high_risk p = true ↔ 4 ≤ ageRisk age + tempRisk temp + risk)
           ∧ (ageValid age = false → ageRisk age = 0)
           ∧ (tempValid temp = false → tempRisk temp = 0)
           ∧ (bpValid match_ = false → risk = 0)
           ∧ (ageValid age = false → tempValid temp = false →
              bpValid match_ = false →
              ageRisk age + tempRisk temp + risk = 0))
      ∧ (has_fever p = true ↔
           tempValid temp = true ∧ ge temp lit_99_6 = true)
      ∧ (lit_99_6 = StringToNumber "99.6"
         ∧ (value_of lit_99_6 < 996 # 10)%Q
         ∧ ((996 # 10) - value_of lit_99_6 < 1 # 2 ^ 47)%Q)
      ∧ (canonical temp → tempValid temp = true →
           ((996 # 10 <= value_of temp)%Q → has_fever p = true)
           ∧ ((value_of temp <= (996 # 10) - (1 # 2 ^ 47))%Q →
              has_fever p = false))
      ∧ (∀ a b, 0 ≤ a ≤ 999 → 0 ≤ b ≤ 9 →
           field p "temperature" = VStr (one_decimal a b)
           ∨ field p "temperature"
             = VNum (of_decimal false (Z.to_N (10 * a + b)) (-1)) →
           has_fever p = (996 <=? 10 * a + b))
      ∧ (has_data_issue p = true ↔
           ageValid age = false ∨ tempValid temp = false
           ∨ bpValid match_ = false)
      ∧ (ageValid age = false → tempValid temp = false →
         bpValid match_ = false →
         pushed high_risk p = [] ∧ pushed has_fever p = []
         ∧ pushed has_data_issue p = [patient_id p]).
Proof.
  intros Hps. split; [by apply assessPatients_spec|].
  intros p Hp age temp match_.
  rewrite Forall_forall in Hps. specialize (Hps p Hp).
  assert (Hzero : ageValid age = false → tempValid temp = false →
                  bpValid match_ = false → totalRisk p = 0).
  { intros Ha Ht Hb. unfold totalRisk. fold age temp match_.
    destruct (ageRisk_range age) as [_ ->]; [|done].
    destruct (tempRisk_range temp) as [_ ->]; [|done].
    by destruct (bpRisk_range match_) as [_ ->]. }
  refine (conj _ (conj _ (conj _ (conj _ (conj _ (conj _ (conj _
            (conj _ _)))))))).
  - destruct Hps as (_ & _ & Hage & Htemp). by rewrite !Number_printable.
  - intros a. by apply assess_record_spec.
  - exists (bp_risk_of match_). split; [apply bpRisk_returns|].
    split_and!.
    + unfold high_risk, totalRisk. fold age temp match_. apply Z.leb_le.
    + apply ageRisk_range.
    + apply tempRisk_range.
    + apply bpRisk_range.
    + apply Hzero.
  - unfold has_fever. fold temp. apply andb_true_iff.
  - destruct lit_99_6_exact as (_ & _ & Hbelow & Hnear).
    exact (conj lit_99_6_text (conj Hbelow Hnear)).
  - intros Cx Hv. unfold has_fever. fold temp. rewrite Hv. cbn [andb].
    destruct lit_99_6_exact as (C99 & F99 & Hbelow & _).
    assert (Fx : isFinite temp = true) by exact Hv.
    split.
    + intros Hlo. apply ge_exact; [assumption..|]. apply Qlt_le_weak.
      apply Qlt_le_trans with (996 # 10)%Q; [exact Hbelow|exact Hlo].
    + intros Hlo%below_99_6. rewrite ge_is_not_lt by assumption.
      apply negb_false_iff. apply lt_exact; assumption.
  - intros a b Ha Hb Hfield.
    destruct (tenths_of_degrees a b Ha Hb) as (Tstr & Tvalid & _ & Tfever).
    unfold has_fever, temperature_of.
    destruct Hfield as [-> | ->]; rewrite ?Tstr; by rewrite Tvalid, Tfever.
  - unfold has_data_issue. fold age temp match_.
    destruct (ageValid age), (tempValid temp), (bpValid match_); simpl;
      intuition congruence.
  - intros Ha Ht Hb.
    unfold pushed, high_risk, has_fever, has_data_issue.
    fold age temp match_. by rewrite Hzero, Ha, Ht, Hb.
Qed.

(** Four records: one with every field in order and a temperature of
    99.6, one with no field, one with a temperature of 99.5, and one with a
    temperature of 102. *)
Lemma classification_witness :
  assessPatients
    [VObj (list_to_map [("patient_id", VStr "p1"); ("age", VNum (lit 70));
                        ("temperature", VStr "99.6");
                        ("blood_pressure", VStr "150/95")]);
     VObj (list_to_map [("patient_id", VStr "p2")]);
     VObj (list_to_map [("patient_id", VStr "p3"); ("age", VNum (lit 30));
                        ("temperature", VStr "99.5");
                        ("blood_pressure", VStr "110/70")]);
     VObj (list_to_map [("patient_id", VStr "p4"); ("age", VNum (lit 30));
                        ("temperature", VNum (lit 102));
                        ("blood_pressure", VStr "110/70")])]
  = Ret {| highRiskPatients := [VStr "p1"];
           feverPatients := [VStr "p1"; VStr "p4"];
           dataQualityIssues := [VStr "p2"] |}.
Proof.
  refine (eq_trans (proj1 (classification _ _)) _).
  - repeat constructor; discriminate.
  - vm_compute. reflexivity.
Defined.

(** C3, as stated, fails: the same identifier on two feverish records is
    pushed twice. *)
Lemma no_duplicates_counterexample :
  Forall is_record
    [VObj (list_to_map [("patient_id", VStr "p1");
                        ("temperature", VNum (lit 102))]);
     VObj (list_to_map [("patient_id", VStr "p1");
                        ("temperature", VNum (lit 102))])]
  ∧ ∃ a,
      assessPatients
        [VObj (list_to_map [("patient_id", VStr "p1");
                            ("temperature", VNum (lit 102))]);
         VObj (list_to_map [("patient_id", VStr "p1");
                            ("temperature", VNum (lit 102))])] = Ret a
      ∧ feverPatients a = [VStr "p1"; VStr "p1"]
      ∧ ¬ NoDup (feverPatients a).
Proof.
  split; [repeat constructor; discriminate|].
  eexists. split; [vm_compute; reflexivity|]. split; [reflexivity|].
  cbn [feverPatients]. intros Hnd. apply NoDup_cons in Hnd as [Hin _].
  apply Hin. by left.
Qed.

(** C3, amended.  Each of the three lists returned is a subsequence of the
    patient identifiers of the input, in input order: a record contributes
    its identifier at most once to each list.  So a list has no duplicates
    whenever the identifiers of the input are pairwise distinct. *)
Theorem lists_in_input_order (patients : list value) :
  Forall is_record patients →
  ∃ a, assessPatients patients = Ret a
       ∧ highRiskPatients a `sublist_of` patient_id <$> patients
       ∧ feverPatients a `sublist_of` patient_id <$> patients
       ∧ dataQualityIssues a `sublist_of` patient_id <$> patients
       ∧ (NoDup (patient_id <$> patients) →
          NoDup (highRiskPatients a) ∧ NoDup (feverPatients a)
          ∧ NoDup (dataQualityIssues a)).
Proof.
  intros Hps. eexists. split; [by apply assessPatients_spec|].
  cbn [highRiskPatients feverPatients dataQualityIssues].
  pose proof (ids_where_sublist high_risk patients) as H1.
  pose proof (ids_where_sublist has_fever patients) as H2.
  pose proof (ids_where_sublist has_data_issue patients) as H3.
  split_and!; [done..|]. intros Hnd.
  split_and!; eapply sublist_NoDup; done.
Qed.

(** Three records with distinct identifiers. *)
Lemma lists_in_input_order_witness :
  ∃ a,
    assessPatients
      [VObj (list_to_map [("patient_id", VStr "p1");
                          ("temperature", VNum (lit 102))]);
       VObj (list_to_map [("patient_id", VStr "p2")]);
       VObj (list_to_map [("patient_id", VStr "p3");
                          ("temperature", VStr "100.5")])] = Ret a
    ∧ feverPatients a = [VStr "p1"; VStr "p3"]
    ∧ NoDup (feverPatients a).
Proof.
  edestruct (lists_in_input_order
    [VObj (list_to_map [("patient_id", VStr "p1");
                        ("temperature", VNum (lit 102))]);
     VObj (list_to_map [("patient_id", VStr "p2")]);
     VObj (list_to_map [("patient_id", VStr "p3");
                        ("temperature", VStr "100.5")])])
    as (a & Ha & _ & _ & _ & Hnd).
  - repeat constructor; discriminate.
  - exists a. split; [exact Ha|].
    assert (Hf : feverPatients a = [VStr "p1"; VStr "p3"]).
    { vm_compute in Ha. by injection Ha as <-. }
    split; [exact Hf|]. apply Hnd.
    vm_compute. repeat constructor; rewrite ?list_elem_of_In; simpl; intuition discriminate.
Defined.

(** C9.  [null] and the empty string coerce to [+0]: such an age is valid
    with risk 0 and never the reason for a data-quality flag, and such a
    temperature is a valid reading below the risk and fever thresholds.
    [undefined], the value of an absent field, coerces to NaN: the field is
    invalid and the record is flagged. *)
Theorem null_and_empty_are_zero (v : value) :
  v = VNull ∨ v = VStr "" →
  let zero := S754_zero false in
  Number v = Ret zero
  ∧ (ageValid zero = true ∧ ageRisk zero = 0)
  ∧ (tempValid zero = true ∧ tempRisk zero = 0
     ∧ lt zero lit_99_6 = true ∧ ge zero lit_99_6 = false)
  ∧ (∀ p, field p "age" = v →
       age_of p = zero
       ∧ (has_data_issue p = true ↔
            tempValid (temperature_of p) = false ∨ bpValid (bp_of p) = false))
  ∧ (∀ p, field p "temperature" = v →
       temperature_of p = zero ∧ has_fever p = false
       ∧ (has_data_issue p = true ↔
            ageValid (age_of p) = false ∨ bpValid (bp_of p) = false))
  ∧ (Number VUndefined = Ret NaN ∧ ageValid NaN = false
     ∧ tempValid NaN = false)
  ∧ (∀ o name, o !! name = None → field (VObj o) name = VUndefined)
  ∧ (∀ p, field p "age" = VUndefined ∨ field p "temperature" = VUndefined →
       has_data_issue p = true).
Proof.
  intros Hv zero.
  assert (Hz : number_of v = zero) by (by destruct Hv as [-> | ->]).
  split_and!; try done.
  - by destruct Hv as [-> | ->].
  - intros p Hp. assert (Ha : age_of p = zero) by (unfold age_of; by rewrite Hp).
    split; [done|]. unfold has_data_issue. rewrite Ha.
    change (ageValid zero) with true.
    destruct (tempValid (temperature_of p)), (bpValid (bp_of p)); simpl;
      intuition congruence.
  - intros p Hp.
    assert (Ht : temperature_of p = zero)
      by (unfold temperature_of; by rewrite Hp).
    split_and!; [done|..].
    + unfold has_fever. by rewrite Ht.
    + unfold has_data_issue. rewrite Ht. change (tempValid zero) with true.
      destruct (ageValid (age_of p)), (bpValid (bp_of p)); simpl;
        intuition congruence.
  - intros o name Ho. simpl. by rewrite Ho.
  - intros p [Hp|Hp]; unfold has_data_issue.
    + unfold age_of. by rewrite Hp.
    + unfold temperature_of. rewrite Hp.
      change (tempValid (number_of VUndefined)) with false.
      by rewrite andb_false_r.
Qed.

(** The record [{patient_id: "p1", age: null, temperature: 98,
    blood_pressure: "110/70"}] has no data-quality issue. *)
Lemma null_and_empty_are_zero_witness :
  Number VNull = Ret (S754_zero false)
  ∧ has_data_issue
      (VObj (list_to_map [("patient_id", VStr "p1"); ("age", VNull);
                          ("temperature", VNum (lit 98));
                          ("blood_pressure", VStr "110/70")])) ≠ true.
Proof.
  destruct (null_and_empty_are_zero VNull) as (Hz & _ & _ & Hage & _);
    [by left|].
  split; [exact Hz|].
  intros Hissue. apply Hage in Hissue; [|reflexivity].
  vm_compute in Hissue. destruct Hissue; discriminate.
Defined.

(** C10.  No component risk exceeds 3 and an invalid component has risk 0;
    so every record whose total risk reaches 4 has at least two of its
    three validity flags set, and every identifier in the high-risk list
    comes from such a record. *)
Theorem high_risk_needs_two_valid (patients : list value) (a : alerts) :
  Forall is_record patients → assessPatients patients = Ret a →
  (∀ age temp match_,
     0 ≤ ageRisk age ≤ 2 ∧ 0 ≤ tempRisk temp ≤ 2
     ∧ ∃ risk, bpRisk match_ = Ret risk ∧ 0 ≤ risk ≤ 3)
  ∧ (∀ p, high_risk p = true → (2 ≤ valid_flags p)%nat)
  ∧ ∀ id, id ∈ highRiskPatients a →
      ∃ p, p ∈ patients ∧ patient_id p = id ∧ 4 ≤ totalRisk p
           ∧ (2 ≤ valid_flags p)%nat.
Proof.
  intros Hps Ha.
  assert (Htwo : ∀ p, high_risk p = true → (2 ≤ valid_flags p)%nat).
  { intros p Hp. apply Z.leb_le in Hp. unfold totalRisk in Hp.
    unfold valid_flags.
    destruct (ageRisk_range (age_of p)) as [? Ha0].
    destruct (tempRisk_range (temperature_of p)) as [? Ht0].
    destruct (bpRisk_range (bp_of p)) as [? Hb0].
    destruct (ageValid _), (tempValid _), (bpValid _); simpl;
      try lia; rewrite ?Ha0, ?Ht0, ?Hb0 in Hp by done; lia. }
  split_and!.
  - intros age temp match_.
    destruct (ageRisk_range age) as [? _].
    destruct (tempRisk_range temp) as [? _].
    destruct (bpRisk_range match_) as [? _].
    split; [done|]. split; [done|]. exists (bp_risk_of match_).
    split; [apply bpRisk_returns|done].
  - done.
  - intros id Hid. rewrite assessPatients_spec in Ha by done.
    injection Ha as <-. cbn [highRiskPatients] in Hid.
    apply ids_where_elem in Hid as (p & Hp & Hpid & Hhigh).
    exists p. split_and!; [done..| |by apply Htwo].
    by apply Z.leb_le in Hhigh.
Qed.

(** A record with no valid blood pressure, at high risk by age and fever. *)
Lemma high_risk_needs_two_valid_witness :
  ∃ p, patient_id p = VStr "p1" ∧ 4 ≤ totalRisk p ∧ (2 ≤ valid_flags p)%nat.
Proof.
  destruct (high_risk_needs_two_valid
    [VObj (list_to_map [("patient_id", VStr "p1"); ("age", VNum (lit 70));
                        ("temperature", VNum (lit 102))])]
    {| highRiskPatients := [VStr "p1"]; feverPatients := [VStr "p1"];
       dataQualityIssues := [VStr "p1"] |}) as (_ & _ & H).
  - repeat constructor; discriminate.
  - vm_compute. reflexivity.
  - destruct (H (VStr "p1")) as (p & _ & Hp); [by left|]. by exists p.
Defined.

End Assessor.


(** ** The retrying fetcher, the page fetcher and the collector *)

Section Fetcher.

Variable net : trace → string → request_init → outcome response.
Variable max_arguments : Z.

(** One turn of the retry loop. *)
Lemma fetchWithRetry_loop_step (fuel : nat) (url : string)
    (options : request_init) (attempt : Z) (t : trace) :
  fetchWithRetry_loop net (S fuel) url options attempt t =
  match net t url options with
  | Throw e => (Some (Throw e), t ++ [EFetch url options])
  | Ret res =>
      if status res =? 429 then
        fetchWithRetry_loop net fuel url options (attempt + 1)
          (t ++ [EFetch url options;
                 EConsole Warn
                   [LStr ("Rate limit (429) on attempt "
                          +:+ pretty (attempt + 1) +:+ ". Waiting 15s...")];
                 EWait 15000])
      else if (status res =? 500) || (status res =? 503) then
        fetchWithRetry_loop net fuel url options (attempt + 1)
          (t ++ [EFetch url options;
                 EConsole Warn
                   [LStr ("Retryable error (" +:+ pretty (status res)
                          +:+ ") on attempt " +:+ pretty (attempt + 1)
                          +:+ ". Waiting 1s...")];
                 EWait 1000])
      else if negb (ok res) then
        (Some (Throw (Error ("Request failed with status "
                             +:+ pretty (status res)))),
         t ++ [EFetch url options])
      else (Some (json_body res), t ++ [EFetch url options])
  end.
Proof.
  cbn [fetchWithRetry_loop]. unfold mbind, M_bind, fetch at 1.
  destruct (net t url options) as [res|e]; [|done].
  destruct (status res =? 429).
  { unfold console, wait. cbn. by rewrite <- !app_assoc. }
  destruct ((status res =? 500) || (status res =? 503)).
  { unfold console, wait. cbn. by rewrite <- !app_assoc. }
  destruct (negb (ok res)); [done|].
  unfold json, lift, mret, M_ret. by destruct (json_body res).
Qed.

Lemma fetchWithRetry_loop_mono (fuel fuel' : nat) (url : string)
    (options : request_init) (attempt : Z) (t : trace)
    (o : outcome value) (t' : trace) :
  fetchWithRetry_loop net fuel url options attempt t = (Some o, t') →
  (fuel ≤ fuel')%nat →
  fetchWithRetry_loop net fuel' url options attempt t = (Some o, t').
Proof.
  revert fuel' attempt t. induction fuel as [|fuel IH]; intros fuel' attempt t.
  - discriminate.
  - destruct fuel' as [|fuel']; [lia|]. intros H Hle.
    rewrite fetchWithRetry_loop_step in *.
    destruct (net t url options) as [res|e]; [|done].
    repeat case_match; try done; apply IH; (done || lia).
Qed.

Lemma fetchWithRetry_loop_extends (fuel : nat) (url : string)
    (options : request_init) (attempt : Z) (t : trace) :
  ∃ d, (fetchWithRetry_loop net fuel url options attempt t).2 = t ++ d.
Proof.
  revert attempt t. induction fuel as [|fuel IH]; intros attempt t.
  - exists []. by rewrite app_nil_r.
  - rewrite fetchWithRetry_loop_step.
    destruct (net t url options) as [res|e]; [|by eexists].
    repeat case_match; try by eexists.
    + destruct (IH (attempt + 1) (t ++ [EFetch url options;
                 EConsole Warn
                   [LStr ("Rate limit (429) on attempt "
                          +:+ pretty (attempt + 1) +:+ ". Waiting 15s...")];
                 EWait 15000])) as [d ->]. rewrite <- app_assoc. by eexists.
    + match goal with |- ∃ d, (fetchWithRetry_loop _ _ _ _ ?a ?t1).2 = _ =>
        destruct (IH a t1) as [d ->] end.
      rewrite <- app_assoc. by eexists.
Qed.

(** The page fetch, by what the retrying fetch settles to. *)
Lemma fetchPatientsPage_unfold (fuel : nat) (page : Z) (t : trace) :
  fetchPatientsPage net fuel page t =
  match fetchWithRetry net fuel (page_url page) page_options t with
  | (None, t') => (None, t')
  | (Some (Ret payload), t') =>
      match get payload "data" with
      | Ret (VArr l) => (Some (Ret l), t')
      | Ret _ => (Some (Ret []), t')
      | Throw e =>
          (Some (Ret []),
           t' ++ [EConsole Err
                    [LStr ("Hard failure on page " +:+ pretty page +:+ ":");
                     LMessageOf e]])
      end
  | (Some (Throw e), t') =>
      (Some (Ret []),
       t' ++ [EConsole Err
                [LStr ("Hard failure on page " +:+ pretty page +:+ ":");
                 LMessageOf e]])
  end.
Proof.
  unfold fetchPatientsPage, try_catch, mbind, M_bind.
  destruct (fetchWithRetry net fuel (page_url page) page_options t)
    as [[[payload|e]|] t']; [|done..].
  unfold lift. destruct (get payload "data") as [[]|e]; done.
Qed.

(** A page fetch that settles has made a request of its page. *)
Lemma fetchPatientsPage_requests (fuel : nat) (page : Z) (t : trace)
    (o : outcome (list value)) (t' : trace) :
  fetchPatientsPage net fuel page t = (Some o, t') →
  (requests_of page t < requests_of page t')%nat.
Proof.
  rewrite fetchPatientsPage_unfold. unfold fetchWithRetry.
  destruct fuel as [|fuel]; [discriminate|].
  assert (Hfirst : ∃ d, (fetchWithRetry_loop net (S fuel) (page_url page)
                           page_options 0 t).2
                        = t ++ EFetch (page_url page) page_options :: d).
  { rewrite fetchWithRetry_loop_step.
    destruct (net t (page_url page) page_options) as [res|e]; [|by eexists].
    repeat case_match; try by eexists.
    all: match goal with |- ∃ d, (fetchWithRetry_loop _ ?f ?u ?o ?a ?t1).2 = _ =>
           destruct (fetchWithRetry_loop_extends f u o a t1) as [d ->] end.
    all: rewrite <- app_assoc; by eexists. }
  destruct Hfirst as [d Hd].
  assert (Hcount : ∀ d', (requests_of page t
    < requests_of page ((t ++ EFetch (page_url page) page_options :: d) ++ d'))%nat).
  { intros d'. unfold requests_of.
    rewrite !List.filter_app, !length_app. cbn [List.filter is_request_of].
    rewrite String.eqb_refl. cbn [length]. lia. }
  destruct (fetchWithRetry_loop net (S fuel) _ _ _ t) as [[[payload|e]|] t1];
    simpl in Hd; subst t1; [| |discriminate].
  - destruct (get payload "data") as [[]|e]; intros [= _ <-];
      first [apply Hcount | rewrite <- (app_nil_r (_ ++ _ :: _)); apply Hcount].
  - intros [= _ <-]. apply Hcount.
Qed.

Lemma fetchPatientsPage_mono (fuel fuel' : nat) (page : Z) (t : trace)
    (o : outcome (list value)) (t' : trace) :
  fetchPatientsPage net fuel page t = (Some o, t') → (fuel ≤ fuel')%nat →
  fetchPatientsPage net fuel' page t = (Some o, t').
Proof.
  rewrite !fetchPatientsPage_unfold. unfold fetchWithRetry. intros H Hle.
  destruct (fetchWithRetry_loop net fuel _ _ _ t) as [[r|] t1] eqn:Hrun;
    [|done].
  by rewrite (fetchWithRetry_loop_mono _ _ _ _ _ _ _ _ Hrun Hle).
Qed.

Lemma fetchPatientsPage_extends (fuel : nat) (page : Z) (t : trace) :
  ∃ d, (fetchPatientsPage net fuel page t).2 = t ++ d.
Proof.
  rewrite fetchPatientsPage_unfold. unfold fetchWithRetry.
  destruct (fetchWithRetry_loop_extends fuel (page_url page) page_options 0 t)
    as [d Hd].
  destruct (fetchWithRetry_loop net fuel _ _ _ t) as [[[payload|e]|] t1];
    simpl in Hd; subst t1.
  - destruct (get payload "data") as [[]|e]; try by eexists.
    rewrite <- app_assoc. by eexists.
  - rewrite <- app_assoc. by eexists.
  - by eexists.
Qed.

(** The page fetch never settles to an error. *)
Lemma fetchPatientsPage_returns (fuel : nat) (page : Z) (t : trace)
    (o : outcome (list value)) (t' : trace) :
  fetchPatientsPage net fuel page t = (Some o, t') → ∃ l, o = Ret l.
Proof.
  rewrite fetchPatientsPage_unfold.
  destruct (fetchWithRetry net fuel _ _ t) as [[[payload|e]|] t1].
  - destruct (get payload "data") as [[]|e]; intros [= <- _]; by eexists.
  - intros [= <- _]; by eexists.
  - discriminate.
Qed.




(** The call that appends a page, within the engine's bound and beyond. *)
Lemma push_spread_fits (array items : list value) :
  Z.of_nat (length items) ≤ max_arguments →
  push_spread max_arguments array items = Ret (array ++ items).
Proof. intros H%Z.leb_le. unfold push_spread. by rewrite H. Qed.

Lemma push_spread_over (array items : list value) :
  max_arguments < Z.of_nat (length items) →
  push_spread max_arguments array items = Throw RangeError_arguments.
Proof. intros H%Z.leb_gt. unfold push_spread. by rewrite H. Qed.

(** One turn of the collecting loop, by what the page fetch settles to. *)
Lemma fetchAllPatients_loop_step (fuel : nat) (allPatients : list value)
    (page : Z) (t : trace) :
  fetchAllPatients_loop net max_arguments (S fuel) allPatients page t =
  if page <=? 3 then
    match fetchPatientsPage net fuel page (t ++ [requesting page]) with
    | (None, t') => (None, t')
    | (Some (Throw e), t') => (Some (Throw e), t')
    | (Some (Ret []), t') =>
        fetchAllPatients_loop net max_arguments fuel allPatients page
          (t' ++ [retrying page])
    | (Some (Ret (p :: ps)), t') =>
        match push_spread max_arguments allPatients (p :: ps) with
        | Ret all =>
            fetchAllPatients_loop net max_arguments fuel all (page + 1)
              (t' ++ [page_fetched page (length all); EWait 1000])
        | Throw e => (Some (Throw e), t')
        end
    end
  else
    (Some (Ret allPatients), t ++ [finished (length allPatients)]).
Proof.
  cbn [fetchAllPatients_loop]. destruct (page <=? 3); [|done].
  unfold mbind, M_bind, console at 1. fold (requesting page).
  destruct (fetchPatientsPage net fuel page _) as [[[[|p ps]|e]|] t']; try done.
  unfold lift. destruct (push_spread max_arguments allPatients (p :: ps));
    [|done].
  unfold console, wait. cbn. by rewrite <- !app_assoc.
Qed.

Lemma fetchAllPatients_loop_mono (fuel fuel' : nat)
    (allPatients : list value) (page : Z) (t : trace)
    (o : outcome (list value)) (t' : trace) :
  fetchAllPatients_loop net max_arguments fuel allPatients page t
  = (Some o, t') →
  (fuel ≤ fuel')%nat →
  fetchAllPatients_loop net max_arguments fuel' allPatients page t
  = (Some o, t').
Proof.
  revert fuel' allPatients page t.
  induction fuel as [|fuel IH]; intros fuel' allPatients page t.
  - discriminate.
  - destruct fuel' as [|fuel']; [lia|]. intros H Hle.
    rewrite fetchAllPatients_loop_step in *.
    destruct (page <=? 3); [|done].
    destruct (fetchPatientsPage net fuel page _) as [[r|] t1] eqn:Hpage;
      [|done].
    rewrite (fetchPatientsPage_mono fuel fuel' _ _ _ _ Hpage) by lia.
    destruct r as [[|p ps]|e]; [| |done].
    + apply IH; (done || lia).
    + destruct (push_spread max_arguments allPatients (p :: ps)); [|done].
      apply IH; (done || lia).
Qed.

Lemma fetchAllPatients_loop_extends (fuel : nat) (allPatients : list value)
    (page : Z) (t : trace) :
  ∃ d, (fetchAllPatients_loop net max_arguments fuel allPatients page t).2
       = t ++ d.
Proof.
  revert allPatients page t.
  induction fuel as [|fuel IH]; intros allPatients page t.
  - exists []. by rewrite app_nil_r.
  - rewrite fetchAllPatients_loop_step.
    destruct (page <=? 3); [|by eexists].
    match goal with |- context [fetchPatientsPage net fuel page ?t1] =>
      destruct (fetchPatientsPage_extends fuel page t1) as [d Hd];
      destruct (fetchPatientsPage net fuel page t1) as [[[[|p ps]|e]|] t2]
    end; simpl in Hd; subst t2; rewrite <- ?app_assoc; try by eexists.
    + match goal with |- ∃ d, (fetchAllPatients_loop _ _ _ ?a ?k ?t1).2 = _ =>
        destruct (IH a k t1) as [d' ->] end.
      rewrite <- !app_assoc. by eexists.
    + destruct (push_spread max_arguments allPatients (p :: ps)) as [all|e];
        [|by eexists].
      match goal with |- ∃ d, (fetchAllPatients_loop _ _ _ ?a ?k ?t1).2 = _ =>
        destruct (IH a k t1) as [d' ->] end.
      rewrite <- !app_assoc. by eexists.
Qed.

Lemma requests_of_app (page : Z) (t d : trace) :
  requests_of page (t ++ d) = (requests_of page t + requests_of page d)%nat.
Proof. unfold requests_of. by rewrite List.filter_app, length_app. Qed.

(** A page that is empty whenever it is fetched: the loop comes back to
    the same page with the same accumulator, one request later. *)
Lemma empty_page_turn (page : Z) (allPatients : list value) (t : trace) :
  page ≤ 3 → page_returns net page [] →
  ∃ f t', (requests_of page t < requests_of page t')%nat
    ∧ ∀ fuel, (f ≤ fuel)%nat →
        fetchAllPatients_loop net max_arguments (S fuel) allPatients page t
        = fetchAllPatients_loop net max_arguments fuel allPatients page t'.
Proof.
  intros Hpage Hempty.
  destruct (Hempty (t ++ [requesting page])) as (f & t2 & Hf).
  exists f. eexists. split; [|intros fuel Hle].
  2:{ rewrite fetchAllPatients_loop_step.
      apply Z.leb_le in Hpage. rewrite Hpage.
      by rewrite (fetchPatientsPage_mono f fuel _ _ _ _ Hf Hle). }
  apply fetchPatientsPage_requests in Hf.
  rewrite !requests_of_app in *. lia.
Qed.

(** What a page fetch settles to is what the page returns. *)
Lemma page_returns_settles (page : Z) (l : list value) (fuel : nat)
    (t : trace) (o : outcome (list value)) (t' : trace) :
  page_returns net page l →
  fetchPatientsPage net fuel page t = (Some o, t') → o = Ret l.
Proof.
  intros Hret Hrun. destruct (Hret t) as (f & t0 & Hf).
  apply (fetchPatientsPage_mono _ (fuel `max` f)%nat) in Hrun; [|lia].
  apply (fetchPatientsPage_mono _ (fuel `max` f)%nat) in Hf; [|lia].
  congruence.
Qed.

(** A page that is empty whenever it is fetched keeps the loop from ever
    settling. *)
Lemma empty_page_never_settles (page : Z) (allPatients : list value)
    (fuel : nat) (t : trace) :
  page ≤ 3 → page_returns net page [] →
  (fetchAllPatients_loop net max_arguments fuel allPatients page t).1 = None.
Proof.
  intros Hpage Hempty. revert t. induction fuel as [|fuel IH]; intros t.
  - reflexivity.
  - rewrite fetchAllPatients_loop_step.
    pose proof Hpage as Hle. apply Z.leb_le in Hle. rewrite Hle.
    destruct (fetchPatientsPage net fuel page _) as [[o|] t1] eqn:Hrun;
      [|done].
    rewrite (page_returns_settles page [] _ _ _ _ Hempty Hrun). apply IH.
Qed.

(** A page that returns a non-empty sequence within the engine's bound
    hands the loop over to the next page; if the loop never settles from
    there, it never settles. *)
Lemma stalls_after (page : Z) (l : list value) :
  page ≤ 3 → page_returns net page l → l ≠ [] →
  Z.of_nat (length l) ≤ max_arguments →
  (∀ allPatients fuel t,
     (fetchAllPatients_loop net max_arguments fuel allPatients (page + 1) t).1
     = None) →
  ∀ allPatients fuel t,
    (fetchAllPatients_loop net max_arguments fuel allPatients page t).1 = None.
Proof.
  intros Hpage Hret Hne Hfits Hnext allPatients fuel t.
  destruct fuel as [|fuel]; [reflexivity|].
  rewrite fetchAllPatients_loop_step.
  apply Z.leb_le in Hpage. rewrite Hpage.
  destruct (fetchPatientsPage net fuel page _) as [[o|] t1] eqn:Hrun;
    [|done].
  rewrite (page_returns_settles page l _ _ _ _ Hret Hrun).
  destruct l as [|p ps]; [done|].
  rewrite push_spread_fits by done. apply Hnext.
Qed.

Lemma empty_page_requests (page : Z) (allPatients : list value) (n : nat) :
  page ≤ 3 → page_returns net page [] →
  ∀ t, ∃ f, ∀ fuel, (f ≤ fuel)%nat →
    (requests_of page t + n
     ≤ requests_of page
         (fetchAllPatients_loop net max_arguments fuel allPatients page t).2)%nat.
Proof.
  intros Hpage Hempty. induction n as [|n IH]; intros t.
  - exists 0%nat. intros fuel _.
    destruct (fetchAllPatients_loop_extends fuel allPatients page t) as [d ->].
    rewrite requests_of_app. lia.
  - destruct (empty_page_turn page allPatients t Hpage Hempty)
      as (f1 & t' & Hlt & Hturn).
    destruct (IH t') as [f2 Hf2]. exists (S (f1 `max` f2))%nat.
    intros [|fuel] Hle; [lia|]. rewrite Hturn by lia.
    specialize (Hf2 fuel ltac:(lia)). lia.
Qed.

(** A page that returns a non-empty sequence within the engine's bound is
    appended and the loop goes on with the next page, after the pacing
    delay. *)
Lemma nonempty_page_turn (page : Z) (l allPatients : list value)
    (t t' : trace) (f fuel : nat) :
  page ≤ 3 →
  fetchPatientsPage net f page (t ++ [requesting page]) = (Some (Ret l), t') →
  l ≠ [] → Z.of_nat (length l) ≤ max_arguments → (f ≤ fuel)%nat →
  fetchAllPatients_loop net max_arguments (S fuel) allPatients page t
  = fetchAllPatients_loop net max_arguments fuel (allPatients ++ l) (page + 1)
      (t' ++ [page_fetched page (length (allPatients ++ l)); EWait 1000]).
Proof.
  intros Hpage Hf Hne Hfits Hle.
  rewrite fetchAllPatients_loop_step.
  apply Z.leb_le in Hpage. rewrite Hpage.
  rewrite (fetchPatientsPage_mono f fuel _ _ _ _ Hf Hle).
  destruct l as [|p ps]; [done|]. by rewrite push_spread_fits.
Qed.

(** A page that returns more than the engine accepts as arguments makes
    the loop fail with the RangeError of the call that appends it, right
    after the page fetch. *)
Lemma oversized_page_turn (page : Z) (l allPatients : list value)
    (t t' : trace) (f fuel : nat) :
  page ≤ 3 →
  fetchPatientsPage net f page (t ++ [requesting page]) = (Some (Ret l), t') →
  l ≠ [] → max_arguments < Z.of_nat (length l) → (f ≤ fuel)%nat →
  fetchAllPatients_loop net max_arguments (S fuel) allPatients page t
  = (Some (Throw RangeError_arguments), t').
Proof.
  intros Hpage Hf Hne Hover Hle.
  rewrite fetchAllPatients_loop_step.
  apply Z.leb_le in Hpage. rewrite Hpage.
  rewrite (fetchPatientsPage_mono f fuel _ _ _ _ Hf Hle).
  destruct l as [|p ps]; [done|]. by rewrite push_spread_over.
Qed.

(** C6.  When the page fetches of pages 1, 2 and 3, made in turn, return
    non-empty sequences, each of no more items than the engine accepts as
    arguments of one call, [fetchAllPatients] settles, with any fuel from
    some amount on, to the three pages one after the other, so to as many
    records as the three pages hold; each page is requested once and
    followed by the pacing delay.  When instead the loop stands at a page
    that is empty whenever it is fetched, it never settles, whatever the
    fuel, and the requests of that same page grow without bound; so
    [fetchAllPatients] never settles when the first page that is always
    empty comes after pages that return such non-empty sequences.  A
    non-empty page of more items than the engine accepts makes the loop
    fail with a RangeError, at once after the page fetch. *)
Theorem pagination (t : trace) :
  (∀ f1 f2 f3 l1 l2 l3 t1 t2 t3,
     fetchPatientsPage net f1 1 (t ++ [requesting 1]) = (Some (Ret l1), t1) →
     l1 ≠ [] → Z.of_nat (length l1) ≤ max_arguments →
     fetchPatientsPage net f2 2
       (t1 ++ [page_fetched 1 (length l1); EWait 1000; requesting 2])
     = (Some (Ret l2), t2) →
     l2 ≠ [] → Z.of_nat (length l2) ≤ max_arguments →
     fetchPatientsPage net f3 3
       (t2 ++ [page_fetched 2 (length (l1 ++ l2)); EWait 1000; requesting 3])
     = (Some (Ret l3), t3) →
     l3 ≠ [] → Z.of_nat (length l3) ≤ max_arguments →
     (∃ fuel, ∀ fuel', (fuel ≤ fuel')%nat →
        fetchAllPatients net max_arguments fuel' t
        = (Some (Ret (l1 ++ l2 ++ l3)),
           t3 ++ [page_fetched 3 (length (l1 ++ l2 ++ l3)); EWait 1000;
                  finished (length (l1 ++ l2 ++ l3))]))
     ∧ length (l1 ++ l2 ++ l3) = (length l1 + length l2 + length l3)%nat)
  ∧ (∀ page allPatients, page ≤ 3 → page_returns net page [] →
       (∀ fuel,
          (fetchAllPatients_loop net max_arguments fuel allPatients page t).1
          = None)
       ∧ ∀ n, ∃ fuel,
           (requests_of page t + n
            ≤ requests_of page
                (fetchAllPatients_loop net max_arguments fuel allPatients
                   page t).2)%nat)
  ∧ (∀ l1 l2,
       page_returns net 1 []
       ∨ (page_returns net 1 l1 ∧ l1 ≠ []
          ∧ Z.of_nat (length l1) ≤ max_arguments ∧ page_returns net 2 [])
       ∨ (page_returns net 1 l1 ∧ l1 ≠ []
          ∧ Z.of_nat (length l1) ≤ max_arguments
          ∧ page_returns net 2 l2 ∧ l2 ≠ []
          ∧ Z.of_nat (length l2) ≤ max_arguments
          ∧ page_returns net 3 []) →
       ∀ fuel, (fetchAllPatients net max_arguments fuel t).1 = None)
  ∧ (∀ page allPatients f l t1,
       page ≤ 3 →
       fetchPatientsPage net f page (t ++ [requesting page])
       = (Some (Ret l), t1) →
       l ≠ [] → max_arguments < Z.of_nat (length l) →
       ∃ fuel, ∀ fuel', (fuel ≤ fuel')%nat →
         fetchAllPatients_loop net max_arguments fuel' allPatients page t
         = (Some (Throw RangeError_arguments), t1)).
Proof.
  split_and!.
  - intros f1 f2 f3 l1 l2 l3 t1 t2 t3 H1 N1 B1 H2 N2 B2 H3 N3 B3.
    split; [|rewrite !length_app; lia].
    exists (4 + (f1 `max` (f2 `max` f3)))%nat. intros fuel' Hle.
    destruct fuel' as [|[|[|[|fuel']]]]; try lia.
    unfold fetchAllPatients.
    rewrite (nonempty_page_turn 1 l1 [] t t1 f1) by (done || lia).
    rewrite app_nil_l.
    rewrite (nonempty_page_turn (1 + 1) l2 l1 _ t2 f2);
      [|lia|by rewrite <- app_assoc|done|done|lia].
    rewrite (nonempty_page_turn (1 + 1 + 1) l3 (l1 ++ l2) _ t3 f3);
      [|lia|by rewrite <- app_assoc|done|done|lia].
    rewrite fetchAllPatients_loop_step. change (1 + 1 + 1 + 1 <=? 3) with false.
    cbn match. by rewrite <- !app_assoc.
  - intros page allPatients Hpage Hempty. split.
    + intros fuel. by apply empty_page_never_settles.
    + intros n.
      destruct (empty_page_requests page allPatients n Hpage Hempty t)
        as [f Hf].
      exists f. by apply Hf.
  - intros l1 l2 Hcase fuel. unfold fetchAllPatients.
    destruct Hcase
      as [H1|[(H1 & N1 & B1 & H2)|(H1 & N1 & B1 & H2 & N2 & B2 & H3)]].
    + by apply empty_page_never_settles.
    + apply (stalls_after 1 l1); [lia|done..|].
      intros a f t0. by apply empty_page_never_settles.
    + apply (stalls_after 1 l1); [lia|done..|].
      intros a f t0. apply (stalls_after (1 + 1) l2); [lia|done..|].
      intros a' f' t0'. by apply empty_page_never_settles.
  - intros page allPatients f l t1 Hpage Hf Hne Hover.
    exists (S f). intros [|fuel'] Hle; [lia|].
    apply (oversized_page_turn page l allPatients t t1 f); (done || lia).
Qed.

End Fetcher.

(** ** A scripted network *)

Section Scripted.

Lemma fetches_app (t d : trace) :
  fetches (t ++ d) = (fetches t + fetches d)%nat.
Proof. unfold fetches. by rewrite List.filter_app, length_app. Qed.

Lemma scripted_next (pre rs : list response) (t : trace) (k : nat)
    (r : response) (url : string) (options : request_init) :
  fetches t = (length pre + k)%nat → rs !! k = Some r →
  scripted (pre ++ rs) t url options = Ret r.
Proof.
  intros Ht Hr. unfold scripted. rewrite Ht.
  rewrite lookup_app_r by lia.
  replace (length pre + k - length pre)%nat with k by lia. by rewrite Hr.
Qed.

(** C7.  When the next three responses are a 429, a 500 and a 200 whose
    body parses, [fetchWithRetry] makes exactly three requests, each with
    the same URL and options, waits 15000 ms after the 429 and 1000 ms after
    the 500, and returns the parsed body of the 200. *)
Theorem retry_after_429_and_500 (pre : list response) (b1 b2 : outcome value)
    (body : value) (url : string) (options : request_init) (t : trace)
    (fuel : nat) :
  length pre = fetches t →
  let net := scripted (pre ++ [Response 429 b1; Response 500 b2;
                               Response 200 (Ret body)]) in
  let t' := t ++ [EFetch url options;
                  EConsole Warn
                    [LStr "Rate limit (429) on attempt 1. Waiting 15s..."];
                  EWait 15000;
                  EFetch url options;
                  EConsole Warn
                    [LStr "Retryable error (500) on attempt 2. Waiting 1s..."];
                  EWait 1000;
                  EFetch url options] in
  fetchWithRetry net (3 + fuel) url options t = (Some (Ret body), t')
  ∧ fetches t' = (fetches t + 3)%nat.
Proof.
  intros Hpre net t'. split_and!.
  - unfold fetchWithRetry. cbn [Nat.add].
    rewrite fetchWithRetry_loop_step.
    unfold net at 1. rewrite (scripted_next pre _ t 0 (Response 429 b1)); [|lia|done].
    cbn [status Z.eqb Pos.eqb].
    rewrite fetchWithRetry_loop_step.
    unfold net at 1.
    rewrite (scripted_next pre _ _ 1 (Response 500 b2));
      [|unfold fetches in *; rewrite !List.filter_app, !length_app; simpl; lia|done].
    cbn [status]. change (500 =? 429) with false. change (500 =? 500) with true.
    cbn [orb].
    rewrite fetchWithRetry_loop_step.
    unfold net at 1.
    rewrite (scripted_next pre _ _ 2 (Response 200 (Ret body)));
      [|unfold fetches in *; rewrite !List.filter_app, !length_app; simpl; lia|done].
    cbn [status]. change (200 =? 429) with false. change (200 =? 500) with false.
    change (200 =? 503) with false. cbn [orb].
    change (ok _) with true. cbn [negb json_body].
    rewrite <- !app_assoc. reflexivity.
  - unfold t'. rewrite fetches_app. reflexivity.
Qed.

End Scripted.

(** The script [429, 500, 200] from the start. *)
Lemma retry_after_429_and_500_witness :
  fetchWithRetry
    (scripted [Response 429 (Ret VNull); Response 500 (Ret VNull);
               Response 200 (Ret (VStr "body"))])
    3 "u" page_options []
  = (Some (Ret (VStr "body")),
     [EFetch "u" page_options;
      EConsole Warn [LStr "Rate limit (429) on attempt 1. Waiting 15s..."];
      EWait 15000;
      EFetch "u" page_options;
      EConsole Warn [LStr "Retryable error (500) on attempt 2. Waiting 1s..."];
      EWait 1000;
      EFetch "u" page_options]).
Proof.
  refine (proj1 (retry_after_429_and_500 [] (Ret VNull) (Ret VNull)
                   (VStr "body") "u" page_options [] 0 _)).
  reflexivity.
Defined.


(** An engine that accepts 1000 arguments.  Three pages of one, two and
    one records; a server that answers 404 to every request; and a first
    page of 1001 records. *)
Lemma pagination_witness :
  (∃ fuel t', ∀ fuel', (fuel ≤ fuel')%nat →
     fetchAllPatients
       (three_pages [VStr "a"] [VStr "b"; VStr "c"] [VStr "d"]) 1000 fuel' []
     = (Some (Ret [VStr "a"; VStr "b"; VStr "c"; VStr "d"]), t'))
  ∧ (∀ fuel, (fetchAllPatients (always_status 404) 1000 fuel []).1 = None)
  ∧ ∃ fuel t', ∀ fuel', (fuel ≤ fuel')%nat →
      fetchAllPatients
        (three_pages (replicate (Z.to_nat 1001) VNull) [VStr "b"] [VStr "c"])
        1000 fuel' []
      = (Some (Throw RangeError_arguments), t').
Proof.
  split_and!.
  - destruct (pagination
      (three_pages [VStr "a"] [VStr "b"; VStr "c"] [VStr "d"]) 1000 [])
      as (H & _).
    edestruct (H 1%nat 1%nat 1%nat [VStr "a"] [VStr "b"; VStr "c"] [VStr "d"])
      as ([fuel Hrun] & _);
      try discriminate; try (vm_compute; reflexivity).
    eexists fuel, _. exact Hrun.
  - destruct (pagination (always_status 404) 1000 []) as (_ & _ & H & _).
    apply (H [] []). left.
    intros t. exists 1%nat. eexists. vm_compute. reflexivity.
  - destruct (pagination
      (three_pages (replicate (Z.to_nat 1001) VNull) [VStr "b"] [VStr "c"])
      1000 []) as (_ & _ & _ & H).
    edestruct (H 1 [] 1%nat (replicate (Z.to_nat 1001) VNull))
      as [fuel Hrun].
    + lia.
    + vm_compute. reflexivity.
    + vm_compute. discriminate.
    + vm_compute. reflexivity.
    + eexists fuel, _. exact Hrun.
Defined.

(** ** Retries, pages, batches and the run, in general *)

Section Retries.

Lemma waited_app (t d : trace) : waited (t ++ d) = waited t + waited d.
Proof. unfold waited. induction t as [|ev t IH]; simpl; lia. Qed.

Lemma retry_events_fetches (url : string) (options : request_init)
    (attempt : Z) (rs : list response) :
  fetches (retry_events url options attempt rs) = length rs.
Proof.
  revert attempt. induction rs as [|r rs IH]; intros attempt; [done|].
  unfold fetches in *. simpl. by rewrite IH.
Qed.

Lemma retry_events_waited (url : string) (options : request_init)
    (attempt : Z) (rs : list response) :
  waited (retry_events url options attempt rs)
  = foldr (λ r acc, cooldown r + acc) 0 rs.
Proof.
  revert attempt. induction rs as [|r rs IH]; intros attempt; [done|].
  unfold waited in *. simpl. by rewrite IH.
Qed.

Lemma retry_loop_scripted (pre rs tail : list response) (url : string)
    (options : request_init) (attempt : Z) (t : trace) (fuel : nat) :
  length pre = fetches t →
  Forall (λ r, retryable r = true) rs →
  (∀ r, head tail = Some r → retryable r = false) →
  fetchWithRetry_loop (scripted (pre ++ rs ++ tail)) (S (length rs) + fuel)
    url options attempt t
  = (Some (settled (head tail)),
     t ++ retry_events url options (attempt + 1) rs ++ [EFetch url options]).
Proof.
  intros Hpre Hrs Htail. revert pre attempt t Hpre.
  induction Hrs as [|r rs Hr Hrs IH]; intros pre attempt t Hpre.
  - cbn [length Nat.add retry_events app]. rewrite fetchWithRetry_loop_step.
    destruct tail as [|r tail].
    + unfold scripted. rewrite app_nil_r, <- Hpre.
      by rewrite lookup_ge_None_2.
    + rewrite (scripted_next pre _ t 0 r); [|lia|done].
      specialize (Htail r eq_refl). unfold retryable in Htail.
      apply orb_false_iff in Htail as [[H1 H2]%orb_false_iff H3].
      rewrite H1, H2, H3. cbn [orb head settled].
      by destruct (ok r).
  - cbn [length Nat.add retry_events]. rewrite fetchWithRetry_loop_step.
    rewrite (scripted_next pre _ t 0 r); [|lia|done].
    assert (Hstep : ∀ t1, fetches t1 = S (fetches t) →
      fetchWithRetry_loop (scripted (pre ++ (r :: rs) ++ tail))
        (S (length rs) + fuel) url options (attempt + 1) t1
      = (Some (settled (head tail)),
         t1 ++ retry_events url options (attempt + 1 + 1) rs
            ++ [EFetch url options])).
    { intros t1 Ht1.
      replace (pre ++ (r :: rs) ++ tail) with ((pre ++ [r]) ++ rs ++ tail)
        by (by rewrite <- app_assoc).
      apply IH. rewrite length_app. simpl. lia. }
    unfold retryable in Hr. unfold retry_warning, cooldown.
    destruct (status r =? 429) eqn:H429.
    + rewrite Hstep by (by rewrite fetches_app, Nat.add_1_r).
      by rewrite <- app_assoc.
    + cbn [orb] in Hr. rewrite Hr.
      rewrite Hstep by (by rewrite fetches_app, Nat.add_1_r).
      by rewrite <- app_assoc.
Qed.


(** X1.  When the next responses are any number of 429, 500 and 503, and
    the one after them is not, [fetchWithRetry] repeats the same request once
    per response, numbers its warnings 1, 2, ..., waits 15000 ms after each
    429 and 1000 ms after each 500 or 503, and settles to the last response:
    to its parsed body when it is a success, to an error with its status
    otherwise, to the failure of the request when there is no response. *)
Theorem retries_then_settles (pre rs tail : list response) (url : string)
    (options : request_init) (t : trace) (fuel : nat) :
  length pre = fetches t →
  Forall (λ r, retryable r = true) rs →
  (∀ r, head tail = Some r → retryable r = false) →
  let t' := t ++ retry_events url options 1 rs ++ [EFetch url options] in
  fetchWithRetry (scripted (pre ++ rs ++ tail)) (S (length rs) + fuel)
    url options t
  = (Some (settled (head tail)), t')
  ∧ fetches t' = (fetches t + length rs + 1)%nat
  ∧ waited t' = waited t + foldr (λ r acc, cooldown r + acc) 0 rs.
Proof.
  intros Hpre Hrs Htail t'. split_and!.
  - by apply retry_loop_scripted.
  - unfold t'. rewrite !fetches_app, retry_events_fetches.
    change (fetches [EFetch url options]) with 1%nat. lia.
  - unfold t'. rewrite !waited_app, retry_events_waited.
    change (waited [EFetch url options]) with 0. lia.
Qed.

End Retries.

(** Two 503, a 429, then a 404. *)
Lemma retries_then_settles_witness :
  fetchWithRetry
    (scripted [Response 503 (Ret VNull); Response 503 (Ret VNull);
               Response 429 (Ret VNull); Response 404 (Ret VNull)])
    4 "u" page_options []
  = (Some (Throw (Error "Request failed with status 404")),
     [EFetch "u" page_options;
      EConsole Warn [LStr "Retryable error (503) on attempt 1. Waiting 1s..."];
      EWait 1000;
      EFetch "u" page_options;
      EConsole Warn [LStr "Retryable error (503) on attempt 2. Waiting 1s..."];
      EWait 1000;
      EFetch "u" page_options;
      EConsole Warn [LStr "Rate limit (429) on attempt 3. Waiting 15s..."];
      EWait 15000;
      EFetch "u" page_options]).
Proof.
  refine (proj1 (retries_then_settles []
    [Response 503 (Ret VNull); Response 503 (Ret VNull);
     Response 429 (Ret VNull)] [Response 404 (Ret VNull)]
    "u" page_options [] 0 _ _ _)).
  - reflexivity.
  - repeat constructor.
  - intros r [= <-]. reflexivity.
Defined.

Section NoCap.

Variable net : trace → string → request_init → outcome response.

Lemma retry_loop_no_cap (url : string) (options : request_init) :
  (∀ t, ∃ res, net t url options = Ret res ∧ retryable res = true) →
  ∀ fuel attempt t,
    (fetchWithRetry_loop net fuel url options attempt t).1 = None
    ∧ fetches (fetchWithRetry_loop net fuel url options attempt t).2
      = (fetches t + fuel)%nat
    ∧ waited t + 1000 * Z.of_nat fuel
      ≤ waited (fetchWithRetry_loop net fuel url options attempt t).2
      ≤ waited t + 15000 * Z.of_nat fuel.
Proof.
  intros Hnet. induction fuel as [|fuel IH]; intros attempt t.
  - cbn [fetchWithRetry_loop out_of_fuel fst snd].
    split_and!; [done|lia..].
  - rewrite fetchWithRetry_loop_step.
    destruct (Hnet t) as (res & -> & Hres). unfold retryable in Hres.
    destruct (status res =? 429).
    + match goal with |- context [fetchWithRetry_loop net fuel _ _ ?a ?t1] =>
        destruct (IH a t1) as (H1 & H2 & H3 & H4) end.
      rewrite fetches_app in H2. rewrite waited_app in H3, H4.
      cbn in H2, H3, H4. split_and!; [done|lia..].
    + cbn [orb] in Hres. rewrite Hres.
      match goal with |- context [fetchWithRetry_loop net fuel _ _ ?a ?t1] =>
        destruct (IH a t1) as (H1 & H2 & H3 & H4) end.
      rewrite fetches_app in H2. rewrite waited_app in H3, H4.
      cbn in H2, H3, H4. split_and!; [done|lia..].
Qed.

(** X2.  [fetchWithRetry] has no cap on its attempts: against a server that
    answers every request with a 429, 500 or 503, it never settles, whatever
    the fuel; with fuel [n] it has made [n] requests and waited between
    [n] seconds and [15 n] seconds. *)
Theorem retry_has_no_cap (url : string) (options : request_init)
    (fuel : nat) (t : trace) :
  (∀ t', ∃ res, net t' url options = Ret res ∧ retryable res = true) →
  (fetchWithRetry net fuel url options t).1 = None
  ∧ fetches (fetchWithRetry net fuel url options t).2 = (fetches t + fuel)%nat
  ∧ waited t + 1000 * Z.of_nat fuel
    ≤ waited (fetchWithRetry net fuel url options t).2
    ≤ waited t + 15000 * Z.of_nat fuel.
Proof. intros Hnet. by apply retry_loop_no_cap. Qed.

End NoCap.

(** A server that always answers 503. *)
Lemma retry_has_no_cap_witness :
  (fetchWithRetry (always_status 503) 7 "u" page_options []).1 = None
  ∧ fetches (fetchWithRetry (always_status 503) 7 "u" page_options []).2
    = 7%nat.
Proof.
  destruct (retry_has_no_cap (always_status 503) "u" page_options 7 [])
    as (H1 & H2 & _).
  - intros t'. eexists. split; reflexivity.
  - split; [exact H1|exact H2].
Defined.

Section Requests.

Variable net : trace → string → request_init → outcome response.
Variable max_arguments : Z.

Lemma requests_app (t d : trace) : requests (t ++ d) = requests t ++ requests d.
Proof. apply List.filter_app. Qed.

Lemma fetches_requests (t : trace) : fetches t = length (requests t).
Proof. done. Qed.

(** What a run of the retry loop adds to the events: requests of its own
    URL and options only, at least one if it settles, no negative wait. *)
Lemma fetchWithRetry_loop_adds (fuel : nat) (url : string)
    (options : request_init) (attempt : Z) (t : trace) :
  ∃ d, (fetchWithRetry_loop net fuel url options attempt t).2 = t ++ d
       ∧ requests d = replicate (fetches d) (EFetch url options)
       ∧ 0 ≤ waited d
       ∧ (is_Some (fetchWithRetry_loop net fuel url options attempt t).1 →
          (1 ≤ fetches d)%nat).
Proof.
  revert attempt t. induction fuel as [|fuel IH]; intros attempt t.
  - exists []. rewrite app_nil_r. cbn.
    split_and!; first [done | intros [? [=]]].
  - rewrite fetchWithRetry_loop_step.
    assert (Hone : ∀ r : option (outcome value),
      ∃ d, (r, t ++ [EFetch url options]).2 = t ++ d
           ∧ requests d = replicate (fetches d) (EFetch url options)
           ∧ 0 ≤ waited d
           ∧ (is_Some (r, t ++ [EFetch url options]).1 → (1 ≤ fetches d)%nat)).
    { intros r. exists [EFetch url options]. cbn. split_and!; done || lia. }
    assert (Hmore : ∀ w ms, 0 ≤ ms →
      ∃ d, (fetchWithRetry_loop net fuel url options (attempt + 1)
              (t ++ [EFetch url options; EConsole Warn w; EWait ms])).2 = t ++ d
           ∧ requests d = replicate (fetches d) (EFetch url options)
           ∧ 0 ≤ waited d
           ∧ (is_Some (fetchWithRetry_loop net fuel url options (attempt + 1)
                (t ++ [EFetch url options; EConsole Warn w; EWait ms])).1 →
              (1 ≤ fetches d)%nat)).
    { intros w ms Hms.
      destruct (IH (attempt + 1)
                  (t ++ [EFetch url options; EConsole Warn w; EWait ms]))
        as (d & Hd & Hreq & Hwait & _).
      exists ([EFetch url options; EConsole Warn w; EWait ms] ++ d).
      rewrite Hd, <- app_assoc, requests_app, fetches_app, waited_app, Hreq.
      cbn. split_and!; done || lia. }
    destruct (net t url options) as [res|e]; [|apply Hone].
    repeat case_match; first [apply Hone | apply Hmore; lia].
Qed.

Lemma fetchPatientsPage_adds (fuel : nat) (page : Z) (t : trace) :
  ∃ d, (fetchPatientsPage net fuel page t).2 = t ++ d
       ∧ requests d = replicate (fetches d) (page_request page)
       ∧ 0 ≤ waited d
       ∧ (is_Some (fetchPatientsPage net fuel page t).1 → (1 ≤ fetches d)%nat).
Proof.
  rewrite fetchPatientsPage_unfold. unfold fetchWithRetry.
  destruct (fetchWithRetry_loop_adds fuel (page_url page) page_options 0 t)
    as (d & Hd & Hreq & Hwait & Hsome).
  destruct (fetchWithRetry_loop net fuel _ _ _ t) as [[r|] t1];
    simpl in Hd, Hsome; subst t1.
  - assert (Hn : (1 ≤ fetches d)%nat) by (apply Hsome; by eexists).
    assert (Hlog : ∀ w,
      ∃ d', (t ++ d) ++ [EConsole Err w] = t ++ d'
            ∧ requests d' = replicate (fetches d') (page_request page)
            ∧ 0 ≤ waited d' ∧ (1 ≤ fetches d')%nat).
    { intros w. exists (d ++ [EConsole Err w]).
      rewrite <- app_assoc, requests_app, fetches_app, waited_app. cbn.
      rewrite app_nil_r, Nat.add_0_r. split_and!; done || lia. }
    destruct r as [payload|e]; [destruct (get payload "data") as [[]|e]|];
      cbn [fst snd];
      first [ exists d; by split_and!
            | edestruct Hlog as (d' & Hd' & ? & ? & ?); exists d';
              split_and!; [exact Hd'|done..] ].
  - exists d. cbn. split_and!; first [done | intros [? [=]]].
Qed.

Lemma in_page_order_nil (k : Z) : in_page_order k [].
Proof. by exists 0%nat, 0%nat, 0%nat. Qed.

Lemma in_page_order_more (k k' : Z) (m : nat) (l : list event) :
  1 ≤ k ≤ 3 → k ≤ k' → in_page_order k' l →
  in_page_order k (replicate m (page_request k) ++ l).
Proof.
  intros Hk Hle (n1 & n2 & n3 & -> & H1 & H2 & H3).
  assert (Hcase : k = 1 ∨ k = 2 ∨ k = 3) by lia.
  destruct Hcase as [-> | [-> | ->]].
  - exists (m + n1)%nat, n2, n3. rewrite replicate_add, <- app_assoc.
    split_and!; done || lia.
  - rewrite H1 by lia. exists 0%nat, (m + n2)%nat, n3.
    rewrite replicate_add, <- app_assoc. split_and!; done || lia.
  - rewrite H1, H2 by lia. exists 0%nat, 0%nat, (m + n3)%nat.
    rewrite replicate_add. split_and!; done || lia.
Qed.

Lemma fetchAllPatients_loop_adds (fuel : nat) (allPatients : list value)
    (page : Z) (t : trace) :
  1 ≤ page →
  ∃ d, (fetchAllPatients_loop net max_arguments fuel allPatients page t).2 = t ++ d
       ∧ in_page_order page (requests d) ∧ 0 ≤ waited d.
Proof.
  revert allPatients page t.
  induction fuel as [|fuel IH]; intros allPatients page t Hpage.
  - exists []. rewrite app_nil_r. split_and!; [done|apply in_page_order_nil|done].
  - rewrite fetchAllPatients_loop_step.
    destruct (page <=? 3) eqn:Hle.
    2:{ exists [finished (length allPatients)].
        split_and!; [done|apply in_page_order_nil|done]. }
    apply Z.leb_le in Hle.
    destruct (fetchPatientsPage_adds fuel page (t ++ [requesting page]))
      as (d & Hd & Hreq & Hwait & _).
    assert (Hstop : ∃ d0, (t ++ [requesting page]) ++ d = t ++ d0
                          ∧ in_page_order page (requests d0) ∧ 0 ≤ waited d0).
    { exists (requesting page :: d). rewrite <- app_assoc.
      split_and!; [done| |exact Hwait].
      change (requests (requesting page :: d)) with (requests d).
      rewrite Hreq, <- (app_nil_r (replicate _ _)).
      apply (in_page_order_more page page); [lia..|apply in_page_order_nil]. }
    assert (Hgo : ∀ a k mid, page ≤ k → requests mid = [] → 0 ≤ waited mid →
      ∃ d0, (fetchAllPatients_loop net max_arguments fuel a k
               (((t ++ [requesting page]) ++ d) ++ mid)).2 = t ++ d0
            ∧ in_page_order page (requests d0) ∧ 0 ≤ waited d0).
    { intros a k mid Hk Hmid Hw.
      destruct (IH a k (((t ++ [requesting page]) ++ d) ++ mid))
        as (d' & Hd' & Hreq' & Hwait'); [lia|].
      exists (requesting page :: d ++ mid ++ d').
      rewrite Hd', <- !app_assoc. split_and!; [done| |].
      - change (requests (requesting page :: d ++ mid ++ d'))
          with (requests (d ++ mid ++ d')).
        rewrite !requests_app, Hreq, Hmid, app_nil_l.
        apply (in_page_order_more page k); [lia|lia|done].
      - change (waited (requesting page :: d ++ mid ++ d'))
          with (0 + waited (d ++ mid ++ d')).
        rewrite !waited_app. lia. }
    destruct (fetchPatientsPage net fuel page _) as [[[[|p ps]|e]|] t2];
      simpl in Hd; subst t2; try exact Hstop.
    + apply Hgo; [lia|done..].
    + destruct (push_spread max_arguments allPatients (p :: ps)) as [all|e];
        [|exact Hstop].
      apply Hgo; [lia|done|]. cbn. lia.
Qed.

(** X3.  Whatever the network answers and however long it runs,
    [fetchAllPatients] only adds events to those so far, and the requests
    it makes are requests of pages 1, 2 and 3 with the page size 20 and the
    key header, in page order: a number of requests of page 1, then of
    page 2, then of page 3.  It never goes back to an earlier page and
    requests no other URL. *)
Theorem requests_in_page_order (fuel : nat) (t : trace) :
  ∃ (d : trace) (n1 n2 n3 : nat),
    (fetchAllPatients net max_arguments fuel t).2 = t ++ d
    ∧ requests d
      = replicate n1 (page_request 1) ++ replicate n2 (page_request 2)
        ++ replicate n3 (page_request 3).
Proof.
  destruct (fetchAllPatients_loop_adds fuel [] 1 t)
    as (d & Hd & (n1 & n2 & n3 & Hreq & _) & _); [lia|].
  by exists d, n1, n2, n3.
Qed.

(** A run of the loop that settles from a page up to 3 has appended a
    non-empty sequence within the engine's bound and gone on to the next
    page, at least one request and one pacing delay later; or it has failed
    on a sequence beyond that bound. *)
Lemma settles_advances (fuel : nat) (allPatients : list value) (page : Z)
    (t : trace) (o : outcome (list value)) (t' : trace) :
  page ≤ 3 →
  fetchAllPatients_loop net max_arguments fuel allPatients page t
  = (Some o, t') →
  (∃ l fuel1 t1,
     l ≠ [] ∧ Z.of_nat (length l) ≤ max_arguments
     ∧ fetchAllPatients_loop net max_arguments fuel1 (allPatients ++ l)
         (page + 1) t1
       = (Some o, t')
     ∧ (fetches t + 1 ≤ fetches t1)%nat ∧ waited t + 1000 ≤ waited t1)
  ∨ (o = Throw RangeError_arguments ∧ (fetches t + 1 ≤ fetches t')%nat).
Proof.
  intros Hpage. revert t. induction fuel as [|fuel IH]; intros t.
  - discriminate.
  - rewrite fetchAllPatients_loop_step.
    pose proof Hpage as Hle. apply Z.leb_le in Hle. rewrite Hle.
    destruct (fetchPatientsPage_adds fuel page (t ++ [requesting page]))
      as (d & Hd & _ & Hwait & Hsome).
    destruct (fetchPatientsPage net fuel page _) as [[[[|p ps]|e]|] t2] eqn:Hrun;
      simpl in Hd, Hsome; subst t2; try discriminate.
    + intros Hrest.
      apply IH in Hrest
        as [(l & f1 & t1 & Hl & Hfits & Hgo & Hf & Hw)|[Ho Hf]].
      * left. exists l, f1, t1. rewrite !fetches_app, !waited_app in *.
        cbn in Hf, Hw. split_and!; done || lia.
      * right. split; [done|]. rewrite !fetches_app in Hf. cbn in Hf. lia.
    + specialize (Hsome ltac:(by eexists)).
      unfold push_spread.
      destruct (Z.of_nat (length (p :: ps)) <=? max_arguments) eqn:Hfits.
      * intros Hrest. left. exists (p :: ps), fuel. eexists.
        apply Z.leb_le in Hfits.
        split_and!; [done|done|exact Hrest|..].
        -- rewrite !fetches_app. cbn. lia.
        -- rewrite !waited_app. cbn. lia.
      * intros [= <- <-]. right. split; [done|].
        rewrite !fetches_app. cbn. lia.
    + apply fetchPatientsPage_returns in Hrun as [l [=]].
Qed.

(** X4.  [fetchAllPatients] settles to a sequence or to one error only,
    the RangeError of the call that appends a page of more items than the
    engine accepts as arguments.  When it settles to a sequence it has
    collected three non-empty sequences within that bound, which it
    returns one after the other; it has then made at least three requests
    and waited at least 3000 ms, and the last event is the line that
    reports the number of records. *)
Theorem settles_with_three_pages (fuel : nat) (t : trace)
    (o : outcome (list value)) (t' : trace) :
  fetchAllPatients net max_arguments fuel t = (Some o, t') →
  (∃ l1 l2 l3,
     o = Ret (l1 ++ l2 ++ l3) ∧ l1 ≠ [] ∧ l2 ≠ [] ∧ l3 ≠ []
     ∧ Forall (λ l, Z.of_nat (length l) ≤ max_arguments) [l1; l2; l3]
     ∧ (fetches t + 3 ≤ fetches t')%nat ∧ waited t + 3000 ≤ waited t'
     ∧ last t' = Some (finished (length (l1 ++ l2 ++ l3))))
  ∨ (o = Throw RangeError_arguments ∧ (fetches t + 1 ≤ fetches t')%nat).
Proof.
  unfold fetchAllPatients. intros H.
  apply settles_advances in H
    as [(l1 & f1 & t1 & N1 & B1 & H & F1 & W1)|Herr]; [|by right|lia].
  apply settles_advances in H
    as [(l2 & f2 & t2 & N2 & B2 & H & F2 & W2)|Herr]; [| |lia].
  2:{ right. destruct Herr as [-> Hf]. split; [done|lia]. }
  apply settles_advances in H
    as [(l3 & f3 & t3 & N3 & B3 & H & F3 & W3)|Herr]; [| |lia].
  2:{ right. destruct Herr as [-> Hf]. split; [done|lia]. }
  destruct f3 as [|f3]; [discriminate|].
  rewrite fetchAllPatients_loop_step in H.
  change (1 + 1 + 1 + 1 <=? 3) with false in H. cbn match in H.
  injection H as <- <-. left. exists l1, l2, l3.
  rewrite <- !app_assoc, fetches_app, waited_app, last_snoc. cbn.
  split_and!; try done; try lia. by repeat constructor.
Qed.

End Requests.

(** An engine that accepts 1000 arguments, and three pages of one, two
    and one records. *)
Lemma settles_with_three_pages_witness :
  (∃ l1 l2 l3,
     Ret [VStr "a"; VStr "b"; VStr "c"; VStr "d"] = Ret (l1 ++ l2 ++ l3)
     ∧ l1 ≠ [] ∧ l2 ≠ [] ∧ l3 ≠ []
     ∧ Forall (λ l, Z.of_nat (length l) ≤ 1000) [l1; l2; l3]
     ∧ (fetches [] + 3
        ≤ fetches (fetchAllPatients
            (three_pages [VStr "a"] [VStr "b"; VStr "c"] [VStr "d"])
            1000 5 []).2)%nat
     ∧ waited [] + 3000
       ≤ waited (fetchAllPatients
           (three_pages [VStr "a"] [VStr "b"; VStr "c"] [VStr "d"])
           1000 5 []).2
     ∧ last (fetchAllPatients
           (three_pages [VStr "a"] [VStr "b"; VStr "c"] [VStr "d"])
           1000 5 []).2
       = Some (finished (length (l1 ++ l2 ++ l3))))
  ∨ (Ret [VStr "a"; VStr "b"; VStr "c"; VStr "d"] = Throw RangeError_arguments
     ∧ (fetches [] + 1
        ≤ fetches (fetchAllPatients
            (three_pages [VStr "a"] [VStr "b"; VStr "c"] [VStr "d"])
            1000 5 []).2)%nat).
Proof.
  apply (settles_with_three_pages
           (three_pages [VStr "a"] [VStr "b"; VStr "c"] [VStr "d"]) 1000 5 []).
  vm_compute. reflexivity.
Defined.

Section EmptyPages.

Variable max_arguments : Z.

(** The page fetch against a script whose next answer is a page. *)
Lemma page_fetch_scripted (pre rest : list response) (l : list value)
    (page : Z) (t : trace) (fuel : nat) :
  length pre = fetches t →
  fetchPatientsPage (scripted (pre ++ page_response l :: rest)) (S fuel) page t
  = (Some (Ret l), t ++ [page_request page]).
Proof.
  intros Hpre. rewrite fetchPatientsPage_unfold. unfold fetchWithRetry.
  rewrite fetchWithRetry_loop_step.
  rewrite (scripted_next pre (page_response l :: rest) t 0 (page_response l))
    by (done || lia).
  cbn. by rewrite lookup_singleton.
Qed.

Lemma past_the_last_page (net : trace → string → request_init → outcome response)
    (fuel : nat) (allPatients : list value) (page : Z) (t : trace) :
  3 < page →
  fetchAllPatients_loop net max_arguments (S fuel) allPatients page t
  = (Some (Ret allPatients), t ++ [finished (length allPatients)]).
Proof.
  intros Hpage. rewrite fetchAllPatients_loop_step.
  by replace (page <=? 3) with false by (symmetry; apply Z.leb_gt; lia).
Qed.

Lemma skip_empty_loop (ls : list (list value)) :
  ∀ (j : nat) (pre rest : list response) (t : trace)
    (allPatients result : list value) (fuel : nat),
    take_nonempty j ls = Some result → (j ≤ 3)%nat →
    Forall (λ l, Z.of_nat (length l) ≤ max_arguments) ls →
    length pre = fetches t → (length ls + 2 ≤ fuel)%nat →
    ∃ t',
      fetchAllPatients_loop
        (scripted (pre ++ (page_response <$> ls) ++ rest)) max_arguments fuel
        allPatients (4 - Z.of_nat j) t
      = (Some (Ret (allPatients ++ result)), t')
      ∧ waited t' = waited t + 1000 * Z.of_nat j
      ∧ (fetches t + j ≤ fetches t' ≤ fetches t + length ls)%nat.
Proof.
  assert (Hdone : ∀ net fuel a t (ls' : list (list value)),
    (length ls' + 2 ≤ fuel)%nat →
    ∃ t', fetchAllPatients_loop net max_arguments fuel a (4 - Z.of_nat 0) t
          = (Some (Ret (a ++ [])), t')
          ∧ waited t' = waited t + 1000 * Z.of_nat 0
          ∧ (fetches t + 0 ≤ fetches t' ≤ fetches t + length ls')%nat).
  { intros net [|fuel] a t ls' Hfuel; [lia|].
    rewrite past_the_last_page by lia. eexists. split; [by rewrite app_nil_r|].
    rewrite waited_app, fetches_app. cbn. lia. }
  induction ls as [|l ls IH];
    intros j pre rest t allPatients result fuel Htake Hj Hfit Hpre Hfuel.
  { destruct j; [|discriminate]. injection Htake as <-. by apply Hdone. }
  destruct j as [|j].
  { injection Htake as <-. by apply Hdone. }
  destruct fuel as [|[|fuel]]; [cbn in Hfuel; lia..|].
  cbn [length] in Hfuel.
  rewrite fetchAllPatients_loop_step.
  replace (4 - Z.of_nat (S j) <=? 3) with true by (symmetry; apply Z.leb_le; lia).
  rewrite fmap_cons. cbn [app].
  rewrite page_fetch_scripted by (by rewrite fetches_app, Nat.add_0_r).
  apply Forall_cons in Hfit as [Hl Hfit].
  destruct l as [|p ps].
  - cbn [take_nonempty] in Htake.
    destruct (IH (S j) (pre ++ [page_response []]) rest
                (((t ++ [requesting (4 - Z.of_nat (S j))])
                  ++ [page_request (4 - Z.of_nat (S j))])
                 ++ [retrying (4 - Z.of_nat (S j))])
                allPatients result (S fuel) Htake Hj Hfit)
      as (t' & Hrun & Hw & Hf).
    { rewrite !fetches_app, length_app. cbn. lia. }
    { lia. }
    rewrite <- (app_assoc pre [page_response []]) in Hrun.
    exists t'. split; [exact Hrun|].
    rewrite !waited_app, !fetches_app in *. cbn in *. lia.
  - cbn [take_nonempty] in Htake. rewrite push_spread_fits by done.
    destruct (take_nonempty j ls) as [r|] eqn:Hr; [|discriminate].
    injection Htake as <-.
    destruct (IH j (pre ++ [page_response (p :: ps)]) rest
                (((t ++ [requesting (4 - Z.of_nat (S j))])
                  ++ [page_request (4 - Z.of_nat (S j))])
                 ++ [page_fetched (4 - Z.of_nat (S j))
                       (length (allPatients ++ p :: ps)); EWait 1000])
                (allPatients ++ p :: ps) r (S fuel) Hr)
      as (t' & Hrun & Hw & Hf).
    { lia. }
    { done. }
    { rewrite !fetches_app, length_app. cbn. lia. }
    { lia. }
    rewrite <- (app_assoc pre [page_response (p :: ps)]) in Hrun.
    rewrite <- (app_assoc allPatients (p :: ps) r) in Hrun.
    replace (4 - Z.of_nat (S j) + 1) with (4 - Z.of_nat j) by lia.
    exists t'. split; [exact Hrun|].
    rewrite !waited_app, !fetches_app in *. cbn in *. lia.
Qed.

(** X5.  Against a server whose successive answers are pages, empty or not,
    each of no more items than the engine accepts as arguments of one
    call, [fetchAllPatients] settles as soon as three of them were
    non-empty, and returns those three one after the other: an empty answer
    is asked for again, nothing of it is kept, and the pacing delay is
    waited only after the three non-empty ones, 3000 ms in all. *)
Theorem empty_pages_are_asked_again (pre rest : list response)
    (ls : list (list value)) (result : list value) (t : trace) (fuel : nat) :
  length pre = fetches t →
  take_nonempty 3 ls = Some result →
  Forall (λ l, Z.of_nat (length l) ≤ max_arguments) ls →
  (length ls + 2 ≤ fuel)%nat →
  ∃ t',
    fetchAllPatients (scripted (pre ++ (page_response <$> ls) ++ rest))
      max_arguments fuel t
    = (Some (Ret result), t')
    ∧ waited t' = waited t + 3000
    ∧ (fetches t + 3 ≤ fetches t' ≤ fetches t + length ls)%nat.
Proof.
  intros Hpre Htake Hfit Hfuel.
  destruct (skip_empty_loop ls 3 pre rest t [] result fuel Htake)
    as (t' & Hrun & Hw & Hf); [lia|done..|].
  exists t'. split; [exact Hrun|]. split; [|exact Hf]. rewrite Hw. lia.
Qed.

End EmptyPages.

(** An engine that accepts 1000 arguments; page 1 empty once, page 2 empty
    twice, then all three pages. *)
Lemma empty_pages_are_asked_again_witness :
  ∃ t',
    fetchAllPatients
      (scripted ([] ++ (page_response <$>
                          [[]; [VStr "a"]; []; []; [VStr "b"; VStr "c"];
                           [VStr "d"]]) ++ [])) 1000 8 []
    = (Some (Ret [VStr "a"; VStr "b"; VStr "c"; VStr "d"]), t')
    ∧ waited t' = waited [] + 3000
    ∧ (fetches [] + 3 ≤ fetches t' ≤ fetches [] + 6)%nat.
Proof.
  apply (empty_pages_are_asked_again 1000 [] []
           [[]; [VStr "a"]; []; []; [VStr "b"; VStr "c"]; [VStr "d"]]);
    [reflexivity|reflexivity|repeat constructor; simpl; lia|simpl; lia].
Defined.

Section HardFailures.

Variable net : trace → string → request_init → outcome response.
Variable max_arguments : Z.

(** A page fetch whose request fails hard: one request, the error line,
    an empty page. *)
Lemma hard_failure_page (fuel : nat) (page : Z) (t : trace) :
  hard_failure (net t (page_url page) page_options) →
  ∃ e, fetchPatientsPage net (S fuel) page t
       = (Some (Ret []),
          t ++ [page_request page;
                EConsole Err
                  [LStr ("Hard failure on page " +:+ pretty page +:+ ":");
                   LMessageOf e]]).
Proof.
  intros Hhard. rewrite fetchPatientsPage_unfold. unfold fetchWithRetry.
  rewrite fetchWithRetry_loop_step.
  destruct (net t (page_url page) page_options) as [res|e].
  - destruct Hhard as [Hretry Hok]. unfold retryable in Hretry.
    apply orb_false_iff in Hretry as [[H429 H500]%orb_false_iff H503].
    rewrite H429, H500, H503, Hok. cbn. rewrite <- app_assoc. by eexists.
  - rewrite <- app_assoc. by eexists.
Qed.

Lemma hard_failures_loop (fuel : nat) (allPatients : list value) (page : Z)
    (t : trace) :
  (∀ t url options, hard_failure (net t url options)) → page ≤ 3 →
  (fetchAllPatients_loop net max_arguments fuel allPatients page t).1 = None
  ∧ waited (fetchAllPatients_loop net max_arguments fuel allPatients page t).2 = waited t
  ∧ fetches (fetchAllPatients_loop net max_arguments fuel allPatients page t).2
    = (fetches t + (fuel - 1))%nat.
Proof.
  intros Hhard Hpage. apply Z.leb_le in Hpage.
  revert t. induction fuel as [|fuel IH]; intros t.
  - cbn. split_and!; done || lia.
  - rewrite fetchAllPatients_loop_step, Hpage.
    destruct fuel as [|fuel].
    + rewrite fetchPatientsPage_unfold. unfold fetchWithRetry.
      cbn [fetchWithRetry_loop out_of_fuel fst snd].
      rewrite waited_app, fetches_app. cbn. split_and!; done || lia.
    + destruct (hard_failure_page fuel page (t ++ [requesting page]))
        as [e ->]; [apply Hhard|].
      destruct (IH (((t ++ [requesting page])
                     ++ [page_request page;
                         EConsole Err
                           [LStr ("Hard failure on page " +:+ pretty page
                                  +:+ ":"); LMessageOf e]])
                    ++ [retrying page])) as (H1 & H2 & H3).
      rewrite H1, H2, H3, !waited_app, !fetches_app. cbn.
      split_and!; done || lia.
Qed.

(** X6.  When every request fails hard, by a failed request or a status
    that is neither retried nor a success, [fetchAllPatients] never
    settles, and it asks again at once: it never waits, and each further
    turn of its loop makes one more request. *)
Theorem hard_failures_are_retried_at_once (fuel : nat) (t : trace) :
  (∀ t url options, hard_failure (net t url options)) →
  (fetchAllPatients net max_arguments fuel t).1 = None
  ∧ waited (fetchAllPatients net max_arguments fuel t).2 = waited t
  ∧ fetches (fetchAllPatients net max_arguments fuel t).2 = (fetches t + (fuel - 1))%nat.
Proof. intros Hhard. by apply hard_failures_loop. Qed.

End HardFailures.

(** A server that answers 404 to every request. *)
Lemma hard_failures_are_retried_at_once_witness :
  (fetchAllPatients (always_status 404) 1000 9 []).1 = None
  ∧ waited (fetchAllPatients (always_status 404) 1000 9 []).2 = waited []
  ∧ fetches (fetchAllPatients (always_status 404) 1000 9 []).2
    = (fetches [] + (9 - 1))%nat.
Proof.
  apply (hard_failures_are_retried_at_once (always_status 404) 1000 9 []).
  intros t url options. split; reflexivity.
Defined.

Section Batches.

Lemma merge_assoc (a b c : alerts) : merge (merge a b) c = merge a (merge b c).
Proof. unfold merge. cbn. by rewrite <- !app_assoc. Qed.

Lemma merge_empty_r (a : alerts) : merge a (Alerts [] [] []) = a.
Proof. unfold merge. cbn. rewrite !app_nil_r. by destruct a. Qed.

(** What an iteration pushes, and whether it throws, does not depend on
    the lists so far. *)
Lemma assess_record_from (a : alerts) (p : value) :
  assess_record a p = b ← assess_record (Alerts [] [] []) p; mret (merge a b).
Proof.
  unfold assess_record.
  repeat (match goal with
          | |- context [@mbind outcome _ _ _ _ ?m] =>
              lazymatch m with
              | mbind _ _ => fail
              | _ => destruct m
              end
          end;
          cbn [mbind outcome_bind mret outcome_ret]; try reflexivity).
  unfold merge. cbn [highRiskPatients feverPatients dataQualityIssues].
  repeat case_match; by rewrite ?app_nil_r.
Qed.

Lemma assess_loop_from (a : alerts) (ps : list value) :
  assess_loop a ps = b ← assess_loop (Alerts [] [] []) ps; mret (merge a b).
Proof.
  revert a. induction ps as [|p ps IH]; intros a.
  - cbn. by rewrite merge_empty_r.
  - cbn [assess_loop]. rewrite assess_record_from.
    destruct (assess_record (Alerts [] [] []) p) as [b|e];
      cbn [mbind outcome_bind mret outcome_ret]; [|done].
    rewrite (IH (merge a b)), (IH b).
    destruct (assess_loop (Alerts [] [] []) ps) as [c|e];
      cbn [mbind outcome_bind mret outcome_ret]; [|done].
    by rewrite merge_assoc.
Qed.

Lemma assess_loop_app (a : alerts) (ps qs : list value) :
  assess_loop a (ps ++ qs) = a' ← assess_loop a ps; assess_loop a' qs.
Proof.
  revert a. induction ps as [|p ps IH]; intros a; [done|].
  cbn [app assess_loop].
  destruct (assess_record a p) as [a'|e];
    cbn [mbind outcome_bind]; [apply IH|done].
Qed.

(** X7.  Assessing two batches one after the other is assessing them
    apart and putting the three lists of the second after those of the
    first; the whole fails exactly when one of the two does, with the
    error of the first that fails. *)
Theorem assessment_of_batches (ps qs : list value) :
  assessPatients (ps ++ qs)
  = a ← assessPatients ps; b ← assessPatients qs; mret (merge a b).
Proof.
  unfold assessPatients. rewrite assess_loop_app.
  destruct (assess_loop (Alerts [] [] []) ps) as [a|e];
    cbn [mbind outcome_bind]; [|done].
  apply assess_loop_from.
Qed.

Lemma get_field (p : value) (name : string) :
  p ≠ VUndefined → p ≠ VNull → get p name = Ret (field p name).
Proof. intros H1 H2. by destruct p. Qed.

Lemma is_record_dec (p : value) : is_record p ∨ ¬ is_record p.
Proof.
  unfold is_record.
  destruct p; try (right; intros (? & ? & _); congruence);
    destruct (unprintable (field _ "age")),
      (unprintable (field _ "temperature"));
    first [ left; split_and!; done
          | right; intros (_ & _ & ? & ?); congruence ].
Qed.

(** What is not a record makes its iteration throw, whatever the lists so
    far. *)
Lemma non_record_throws (p : value) :
  ¬ is_record p → ∃ e, ∀ a, assess_record a p = Throw e.
Proof.
  intros Hno. unfold assess_record.
  assert (Hcase : p = VUndefined ∨ p = VNull ∨ (p ≠ VUndefined ∧ p ≠ VNull))
    by (destruct p;
        first [by left | by right; left | right; right; split; discriminate]).
  destruct Hcase as [-> | [-> | [H1 H2]]]; [by eexists..|].
  rewrite !get_field by done. cbn [mbind outcome_bind].
  unfold Number, ToNumber.
  destruct (unprintable (field p "age")) eqn:Hage; [by eexists|].
  destruct (unprintable (field p "temperature")) eqn:Htemp; [by eexists|].
  by destruct Hno.
Qed.

Lemma assess_loop_records (ps : list value) (a a' : alerts) :
  assess_loop a ps = Ret a' → Forall is_record ps.
Proof.
  revert a. induction ps as [|p ps IH]; intros a; [by constructor|].
  cbn [assess_loop]. intros Hrun.
  destruct (is_record_dec p) as [Hp|Hp].
  - constructor; [done|].
    destruct (assess_record a p) as [b|e]; [|done]. by apply (IH b).
  - destruct (non_record_throws p Hp) as [e He]. by rewrite He in Hrun.
Qed.

(** X8.  [assessPatients] returns exactly on sequences of records.  On a
    sequence whose first item that is not a record is [bad], it throws
    the error that the iteration of [bad] throws, whatever comes after:
    one such item fails the whole batch and no list is returned. *)
Theorem records_are_the_domain (ps : list value) :
  ((∃ a, assessPatients ps = Ret a) ↔ Forall is_record ps)
  ∧ ∀ good bad rest,
      ps = good ++ bad :: rest → Forall is_record good → ¬ is_record bad →
      ∃ e, assessPatients ps = Throw e ∧ ∀ a, assess_record a bad = Throw e.
Proof.
  split.
  - split.
    + intros [a Ha]. by apply (assess_loop_records ps (Alerts [] [] []) a).
    + intros Hps. eexists. by apply assessPatients_spec.
  - intros good bad rest -> Hgood Hbad.
    destruct (non_record_throws bad Hbad) as [e He]. exists e.
    split; [|exact He].
    unfold assessPatients. rewrite assess_loop_app.
    rewrite assess_loop_spec by done. cbn [mbind outcome_bind assess_loop].
    by rewrite He.
Qed.

End Batches.

(** A batch with [null] in the second place. *)
Lemma records_are_the_domain_witness :
  ∃ e, assessPatients
         [VObj {[ "patient_id" := VStr "p1" ]}; VNull;
          VObj {[ "patient_id" := VStr "p3" ]}] = Throw e
       ∧ ∀ a, assess_record a VNull = Throw e.
Proof.
  apply (proj2 (records_are_the_domain _)
           [VObj {[ "patient_id" := VStr "p1" ]}] VNull
           [VObj {[ "patient_id" := VStr "p3" ]}]).
  - reflexivity.
  - repeat constructor; discriminate.
  - intros (_ & H & _). by apply H.
Defined.

Section Monotone.

Lemma ge_trans (x y z : number) :
  ge x y = true → ge y z = true → ge x z = true.
Proof.
  unfold ge.
  destruct x as [sx|sx| |sx mx ex], y as [sy|sy| |sy my ey],
    z as [sz|sz| |sz mz ez]; cbv beta iota delta [SFcompare];
    try discriminate; try reflexivity;
    repeat match goal with s : bool |- _ => destruct s end;
    try discriminate; try reflexivity.
  all: change (Pos.compare_cont Eq) with Pos.compare.
  all: destruct (Z.compare_spec ex ey), (Z.compare_spec ey ez),
         (Z.compare_spec ex ez);
    try discriminate; try reflexivity; try lia; subst.
  all: destruct (Pos.compare_spec mx my), (Pos.compare_spec my mz),
         (Pos.compare_spec mx mz);
    cbn [CompOpp]; try discriminate; try reflexivity; try lia.
Qed.

Lemma band_monotone (a b lo hi : number) :
  ge b a = true →
  (if ge a hi then 2 else if ge a lo then 1 else 0)
  ≤ (if ge b hi then 2 else if ge b lo then 1 else 0).
Proof.
  intros Hba.
  destruct (ge a hi) eqn:Hhi.
  { by rewrite (ge_trans b a hi). }
  destruct (ge a lo) eqn:Hlo.
  { rewrite (ge_trans b a lo) by done. by destruct (ge b hi). }
  by repeat case_match.
Qed.

Lemma bp_band_monotone (sys dia sys' dia' : Z) :
  sys ≤ sys' → dia ≤ dia' → bp_band sys dia ≤ bp_band sys' dia'.
Proof.
  intros Hs Hd. unfold bp_band.
  repeat match goal with
         | |- context [?x <=? ?y] => destruct (Z.leb_spec x y)
         | |- context [?x <? ?y] => destruct (Z.ltb_spec x y)
         end; cbn; lia.
Qed.

(** X9.  No risk goes down when the reading goes up.  For Numbers [a] and
    [b] with [b >= a] and [b] finite, the age risk and the temperature
    risk of [b] are at least those of [a]; infinity is at least every
    finite Number and yet has risk 0, not being valid.  For two valid
    blood pressures, when neither the systolic nor the diastolic is lower,
    the risk is not lower. *)
Theorem risk_is_monotone :
  (∀ a b, ge b a = true → isFinite b = true →
     ageRisk a ≤ ageRisk b ∧ tempRisk a ≤ tempRisk b)
  ∧ (∀ a, isFinite a = true →
       ge (S754_infinity false) a = true
       ∧ ageRisk (S754_infinity false) = 0
       ∧ tempRisk (S754_infinity false) = 0)
  ∧ (∀ s sys dia s' sys' dia',
       bp_reading s sys dia → bp_reading s' sys' dia' →
       integer_of sys ≤ integer_of sys' → integer_of dia ≤ integer_of dia' →
       bp_risk_of (bp_match (VStr s)) ≤ bp_risk_of (bp_match (VStr s'))).
Proof.
  split_and!.
  - intros a b Hba Fb. unfold ageRisk, tempRisk, ageValid, tempValid.
    rewrite Fb. destruct (isFinite a).
    + split; by apply band_monotone.
    + split; by repeat case_match.
  - intros a Fa. by destruct a as [| | |[]].
  - intros s sys dia s' sys' dia' Hr Hr' Hs Hd. unfold bp_risk_of.
    destruct (bpRisk_reading s sys dia Hr) as [_ ->].
    destruct (bpRisk_reading s' sys' dia' Hr') as [_ ->].
    by apply bp_band_monotone.
Qed.

End Monotone.

(** From 40 to 70, for both blocks, and from "110/70" to "150/95". *)
Lemma risk_is_monotone_witness :
  (ageRisk (lit 40) ≤ ageRisk (lit 70) ∧ tempRisk (lit 40) ≤ tempRisk (lit 70))
  ∧ bp_risk_of (bp_match (VStr "110/70"))
    ≤ bp_risk_of (bp_match (VStr "150/95")).
Proof.
  destruct risk_is_monotone as (Hnum & _ & Hbp). split.
  - apply Hnum; reflexivity.
  - apply (Hbp "110/70" "110" "70" "150/95" "150" "95");
      first [ by vm_compute
            | unfold bp_reading, digits_2_3; simpl; auto ].
Defined.

Section Lists.

Lemma fever_is_risk (p : value) :
  has_fever p = (1 <=? tempRisk (temperature_of p)).
Proof.
  unfold has_fever, tempRisk. destruct (tempValid (temperature_of p)); [|done].
  cbn [andb]. destruct (ge (temperature_of p) (lit 101)) eqn:Hhi.
  - by rewrite (ge_trans (temperature_of p) (lit 101) lit_99_6).
  - by destruct (ge (temperature_of p) lit_99_6).
Qed.

(** X10.  On records, the fever list is the list of the records whose
    temperature risk is not 0; and every identifier of the high-risk list
    is in the fever list too, or comes from a record with an age risk of
    at least 1 and a blood-pressure risk of at least 2. *)
Theorem fever_is_temperature_risk (patients : list value) (a : alerts) :
  Forall is_record patients → assessPatients patients = Ret a →
  feverPatients a
  = ids_where (λ p, 1 <=? tempRisk (temperature_of p)) patients
  ∧ ∀ id, id ∈ highRiskPatients a →
      id ∈ feverPatients a
      ∨ ∃ p, p ∈ patients ∧ patient_id p = id
             ∧ 1 ≤ ageRisk (age_of p) ∧ 2 ≤ bp_risk_of (bp_of p).
Proof.
  intros Hps Ha. rewrite assessPatients_spec in Ha by done.
  injection Ha as <-. cbn [feverPatients highRiskPatients]. split.
  - unfold ids_where. f_equal. apply List.filter_ext, fever_is_risk.
  - intros id (p & Hp & Hid & Hrisk)%ids_where_elem.
    destruct (has_fever p) eqn:Hfever.
    + left. apply ids_where_elem. by exists p.
    + right. exists p. split_and!; try done.
      all: rewrite fever_is_risk in Hfever.
      all: unfold high_risk, totalRisk in Hrisk.
      all: pose proof (ageRisk_range (age_of p)) as [? _].
      all: pose proof (bpRisk_range (bp_of p)) as [? _].
      all: lia.
Qed.

End Lists.

(** A record of 70 years with a reading of "150/95" and no fever. *)
Lemma fever_is_temperature_risk_witness :
  ∃ a,
    assessPatients
      [VObj {[ "patient_id" := VStr "p1"; "age" := VStr "70";
               "temperature" := VStr "98.6";
               "blood_pressure" := VStr "150/95" ]}] = Ret a
    ∧ feverPatients a = [] ∧ highRiskPatients a = [VStr "p1"].
Proof.
  eexists. split; [vm_compute; reflexivity|].
  split.
  - refine (proj1 (fever_is_temperature_risk
      [VObj {[ "patient_id" := VStr "p1"; "age" := VStr "70";
               "temperature" := VStr "98.6";
               "blood_pressure" := VStr "150/95" ]}] _ _ _)).
    + repeat constructor; discriminate.
    + vm_compute. reflexivity.
  - reflexivity.
Defined.

Section Run.

Variable net : trace → string → request_init → outcome response.
Variable max_arguments : Z.

Lemma main_unfold (fuel : nat) (t : trace) :
  main net max_arguments fuel t =
  match fetchAllPatients net max_arguments fuel t with
  | (Some (Ret patients), t') =>
      match assessPatients patients with
      | Ret alerts =>
          (Some (Ret
             [RLog "High-Risk Patients:" (highRiskPatients alerts);
              RLog "Fever Patients:" (feverPatients alerts);
              RLog "Data Quality Issues:" (dataQualityIssues alerts);
              RSubmit
                {| submit_url :=
                     "https://assessment.ksensetech.com/api/submit-assessment";
                   submit_method := "POST";
                   submit_headers :=
                     [("Content-Type", "application/json");
                      ("x-api-key",
                       "ak_034df9cf16216ec83e065f8060ff92d03d7b0c98442baf24")];
                   submit_body :=
                     [("high_risk_patients", highRiskPatients alerts);
                      ("fever_patients", feverPatients alerts);
                      ("data_quality_issues", dataQualityIssues alerts)] |}]),
           t')
      | Throw e => (Some (Throw e), t')
      end
  | (Some (Throw e), t') => (Some (Throw e), t')
  | (None, t') => (None, t')
  end.
Proof.
  unfold main, mbind, M_bind, lift.
  destruct (fetchAllPatients net max_arguments fuel t) as [[[patients|e]|] t']; [|done..].
  by destruct (assessPatients patients).
Qed.

(** X11.  When the collection settles to a sequence of records, [main]
    settles: after the events of the collection it writes the high-risk,
    fever and data-quality lists of that sequence, in this order, and then
    sends one POST request to the submission URL, with the
    content type and the key, whose body holds the same three lists under
    [high_risk_patients], [fever_patients] and [data_quality_issues].  The
    request is made once, outside the retrying fetch: whatever the status
    of its answer, the parsed body of the answer is what is written as the
    result. *)
Theorem main_reports_the_classification (fuel : nat) (t : trace)
    (patients : list value) (t' : trace) :
  fetchAllPatients net max_arguments fuel t = (Some (Ret patients), t') →
  Forall is_record patients →
  main net max_arguments fuel t = (Some (Ret (reports_of patients)), t')
  ∧ ∀ res data, json_body res = Ret data →
      submitted (Ret res) = Ret ("Assessment Results:", data).
Proof.
  intros Hrun Hps. split.
  - rewrite main_unfold, Hrun, assessPatients_spec by done. reflexivity.
  - intros res data Hdata. unfold submitted. cbn. by rewrite Hdata.
Qed.

(** X12.  [main] does not settle when the collection does not, and
    fails with the error of the collection when the collection fails.
    When the collection settles to a sequence in which some item is not a
    record, [main] fails with the error of the first such item, once all
    the requests of the collection were made: it gets to no console line
    of its own and to no submission. *)
Theorem main_fails_on_a_bad_record (fuel : nat) (t : trace) :
  ((fetchAllPatients net max_arguments fuel t).1 = None →
   (main net max_arguments fuel t).1 = None)
  ∧ (∀ e t',
       fetchAllPatients net max_arguments fuel t = (Some (Throw e), t') →
       main net max_arguments fuel t = (Some (Throw e), t'))
  ∧ ∀ good bad rest t',
      fetchAllPatients net max_arguments fuel t
      = (Some (Ret (good ++ bad :: rest)), t') →
      Forall is_record good → ¬ is_record bad →
      ∃ e, main net max_arguments fuel t = (Some (Throw e), t')
           ∧ ∀ a, assess_record a bad = Throw e.
Proof.
  rewrite main_unfold. split_and!.
  - by destruct (fetchAllPatients net max_arguments fuel t)
      as [[[patients|e]|] t'].
  - by intros e t' ->.
  - intros good bad rest t' -> Hgood Hbad.
    destruct (non_record_throws bad Hbad) as [e He]. exists e.
    split; [|exact He].
    unfold assessPatients. rewrite assess_loop_app.
    rewrite assess_loop_spec by done. cbn [mbind outcome_bind assess_loop].
    by rewrite He.
Qed.

End Run.

(** An engine that accepts 1000 arguments, and three pages of one record
    each. *)
Lemma main_reports_the_classification_witness :
  ∃ t',
    main (three_pages
            [VObj {[ "patient_id" := VStr "p1"; "age" := VNum (lit 70);
                     "temperature" := VNum (lit 102);
                     "blood_pressure" := VStr "150/95" ]}]
            [VObj {[ "patient_id" := VStr "p2" ]}]
            [VObj {[ "patient_id" := VStr "p3"; "age" := VNum (lit 30);
                     "temperature" := VNum (lit 98);
                     "blood_pressure" := VStr "110/70" ]}]) 1000 5 []
    = (Some (Ret
         [RLog "High-Risk Patients:" [VStr "p1"];
          RLog "Fever Patients:" [VStr "p1"];
          RLog "Data Quality Issues:" [VStr "p2"];
          RSubmit
            {| submit_url :=
                 "https://assessment.ksensetech.com/api/submit-assessment";
               submit_method := "POST";
               submit_headers :=
                 [("Content-Type", "application/json");
                  ("x-api-key",
                   "ak_034df9cf16216ec83e065f8060ff92d03d7b0c98442baf24")];
               submit_body :=
                 [("high_risk_patients", [VStr "p1"]);
                  ("fever_patients", [VStr "p1"]);
                  ("data_quality_issues", [VStr "p2"])] |}]), t').
Proof.
  eexists.
  refine (proj1 (main_reports_the_classification _ 1000 5 []
    [VObj {[ "patient_id" := VStr "p1"; "age" := VNum (lit 70);
             "temperature" := VNum (lit 102);
             "blood_pressure" := VStr "150/95" ]};
     VObj {[ "patient_id" := VStr "p2" ]};
     VObj {[ "patient_id" := VStr "p3"; "age" := VNum (lit 30);
             "temperature" := VNum (lit 98);
             "blood_pressure" := VStr "110/70" ]}] _ _ _)).
  - vm_compute. reflexivity.
  - repeat constructor; discriminate.
Defined.

(** An engine that accepts 1000 arguments, and a second page that holds
    [null]. *)
Lemma main_fails_on_a_bad_record_witness :
  ∃ e t',
    main (three_pages [VObj {[ "patient_id" := VStr "p1" ]}] [VNull]
            [VObj {[ "patient_id" := VStr "p3" ]}]) 1000 5 []
    = (Some (Throw e), t').
Proof.
  destruct (main_fails_on_a_bad_record
              (three_pages [VObj {[ "patient_id" := VStr "p1" ]}] [VNull]
                 [VObj {[ "patient_id" := VStr "p3" ]}]) 1000 5 [])
    as (_ & _ & H).
  edestruct (H [VObj {[ "patient_id" := VStr "p1" ]}] VNull
               [VObj {[ "patient_id" := VStr "p3" ]}]) as (e & Hrun & _).
  - vm_compute. reflexivity.
  - repeat constructor; discriminate.
  - intros (_ & Hnull & _). by apply Hnull.
  - by eexists e, _.
Defined.

Section PageAfterRetries.

(** X13.  When the next responses are any number of 429, 500 and 503
    followed by a success whose body holds an array under [data], the page
    fetch returns that array as it is, after one request per response,
    all of its own page, and the waits of the retries. *)
Theorem page_after_retries (pre rs rest : list response) (l : list value)
    (page : Z) (t : trace) (fuel : nat) :
  length pre = fetches t →
  Forall (λ r, retryable r = true) rs →
  fetchPatientsPage (scripted (pre ++ rs ++ page_response l :: rest))
    (S (length rs) + fuel) page t
  = (Some (Ret l),
     t ++ retry_events (page_url page) page_options 1 rs
       ++ [page_request page]).
Proof.
  intros Hpre Hrs. rewrite fetchPatientsPage_unfold. unfold fetchWithRetry.
  rewrite retry_loop_scripted; [|done..|by intros r [= <-]].
  cbn. by rewrite lookup_singleton.
Qed.

End PageAfterRetries.

(** A 429 and a 500 before the page. *)
Lemma page_after_retries_witness :
  fetchPatientsPage
    (scripted ([] ++ [Response 429 (Ret VNull); Response 500 (Ret VNull)]
               ++ page_response [VStr "a"; VStr "b"] :: []))
    3 2 []
  = (Some (Ret [VStr "a"; VStr "b"]),
     [] ++ retry_events (page_url 2) page_options 1
             [Response 429 (Ret VNull); Response 500 (Ret VNull)]
        ++ [page_request 2]).
Proof.
  apply (page_after_retries []
           [Response 429 (Ret VNull); Response 500 (Ret VNull)] []
           [VStr "a"; VStr "b"] 2 [] 0).
  - reflexivity.
  - repeat constructor.
Defined.

Section Decimals.

Lemma whole_years (n : Z) :
  0 ≤ n ≤ 999 →
  number_of (VStr (pretty n)) = lit n
  ∧ number_of (VNum (lit n)) = lit n
  ∧ ageValid (lit n) = true ∧ ageRisk (lit n) = years_band n.
Proof.
  intros Hn.
  assert (Hall : forallb
    (λ n, bool_decide (number_of (VStr (pretty n)) = lit n)
          && bool_decide (number_of (VNum (lit n)) = lit n)
          && ageValid (lit n) && (ageRisk (lit n) =? years_band n))
    (seqZ 0 1000) = true) by (vm_compute; reflexivity).
  rewrite forallb_forall in Hall.
  assert (Hin : In n (seqZ 0 1000))
    by (apply list_elem_of_In, elem_of_seqZ; lia).
  specialize (Hall n Hin).
  apply andb_prop in Hall as [[[H1 H2]%andb_prop H3]%andb_prop H4].
  apply bool_decide_eq_true in H1, H2. apply Z.eqb_eq in H4. done.
Qed.

(** X14.  Readings written in decimal are read exactly, as a JSON number
    and as a JSON string alike.  An age of [n] whole years, from 0 to 999,
    is valid and has risk 2 from 66, risk 1 from 40 and risk 0 below.  A
    temperature of [a] degrees and [b] tenths is valid; it is a fever
    exactly when [10 a + b] is at least 996, with risk 2 from 1010 and
    risk 1 below: the nearest doubles compare as the decimals do. *)
Theorem decimal_readings (p : value) (a b : Z) :
  0 ≤ a ≤ 999 → 0 ≤ b ≤ 9 →
  (field p "age" = VStr (pretty a) ∨ field p "age" = VNum (lit a) →
   ageValid (age_of p) = true ∧ ageRisk (age_of p) = years_band a)
  ∧ (field p "temperature" = VStr (one_decimal a b)
     ∨ field p "temperature"
       = VNum (of_decimal false (Z.to_N (10 * a + b)) (-1)) →
     tempValid (temperature_of p) = true
     ∧ tempRisk (temperature_of p) = tenths_band (10 * a + b)
     ∧ has_fever p = (996 <=? 10 * a + b)).
Proof.
  intros Ha Hb.
  destruct (whole_years a Ha) as (Hstr & Hnum & Hvalid & Hrisk).
  destruct (tenths_of_degrees a b Ha Hb) as (Tstr & Tvalid & Trisk & Tfever).
  split.
  - unfold age_of. intros [-> | ->]; [rewrite Hstr|rewrite Hnum]; done.
  - unfold has_fever, temperature_of. intros [-> | ->]; rewrite ?Tstr;
      by rewrite Tvalid, Trisk, Tfever.
Qed.

End Decimals.

(** 66 years, as a string; 99.6 degrees, as a string. *)
Lemma decimal_readings_witness :
  ageRisk (age_of (VObj {[ "age" := VStr "66";
                           "temperature" := VStr "99.6" ]})) = 2
  ∧ has_fever (VObj {[ "age" := VStr "66";
                       "temperature" := VStr "99.6" ]}) = true.
Proof.
  destruct (decimal_readings
              (VObj {[ "age" := VStr "66"; "temperature" := VStr "99.6" ]})
              66 6) as [Hage _]; [lia..|].
  destruct (decimal_readings
              (VObj {[ "age" := VStr "66"; "temperature" := VStr "99.6" ]})
              99 6) as [_ Htemp]; [lia..|].
  split.
  - apply Hage. left. reflexivity.
  - apply Htemp. left. reflexivity.
Defined.

(** ** The test vectors of the specification, run on the embedding *)

Section Vectors.

Example bp_vectors :
  (λ s, (bpValid (bp_match (VStr s)), bpRisk (bp_match (VStr s))))
    <$> ["145/95"; "125/85"; "122/75"; "110/70"; "abc/70"]
  = [(true, Ret 3); (true, Ret 2); (true, Ret 1); (true, Ret 0);
     (false, Ret 0)].
Proof. vm_compute. reflexivity. Qed.

Example bp_missing :
  bpValid (bp_match VUndefined) = false ∧ bpRisk (bp_match VUndefined) = Ret 0.
Proof. split; reflexivity. Qed.

Example patient_at_risk :
  assessPatients
    [VObj (list_to_map [("patient_id", VStr "DEMO001"); ("age", VNum (lit 70));
                        ("temperature", VNum (lit 102));
                        ("blood_pressure", VStr "150/95")])]
  = Ret {| highRiskPatients := [VStr "DEMO001"];
           feverPatients := [VStr "DEMO001"];
           dataQualityIssues := [] |}.
Proof. vm_compute. reflexivity. Qed.

Example patient_of_unknown_age :
  assessPatients
    [VObj (list_to_map [("patient_id", VStr "DEMO002"); ("age", VStr "unknown");
                        ("temperature", VStr "98.0");
                        ("blood_pressure", VStr "110/70")])]
  = Ret {| highRiskPatients := [];
           feverPatients := [];
           dataQualityIssues := [VStr "DEMO002"] |}.
Proof. vm_compute. reflexivity. Qed.

(** Outside the records: a [null] in the list, or an age that is an object
    shadowing [toString], makes the whole call throw. *)
Example not_a_record :
  assessPatients [VObj (list_to_map [("patient_id", VStr "DEMO003")]); VNull]
  = Throw (TypeError_nullish VNull "patient_id").
Proof. vm_compute. reflexivity. Qed.

Example age_without_primitive :
  assessPatients
    [VObj (list_to_map [("patient_id", VStr "DEMO004");
                        ("age", VObj {[ "toString" := VNum (lit 1) ]})])]
  = Throw TypeError_primitive.
Proof. vm_compute. reflexivity. Qed.

End Vectors.
